(** * Ambient 3D scenes of the five landing-page skins

    A shallow embedding of the react-three-fiber scene components of the
    repository (Design1 .. Design5): the per-frame [useFrame] callbacks of
    every animated component, the particle-field position buffer and the five
    scene descriptions.

    Numbers.  A JavaScript [number] is modelled as [NaN] or an exact rational:
    arithmetic is exact (IEEE rounding, signed zeros and infinities are not
    modelled, nor is the rounding of a store into a [Float32Array]) and
    [NaN] propagates through every operation as in IEEE 754.  Where rounding
    decides a statement, the accumulation of [rotation.y] is taken on the
    doubles of the machine, in the module [Binary64].
    [Math.sin] and [Math.random] are supplied by the host: they are the
    section variables [sin] and [random] below.

    Objects.  Every component keeps a ref to one three.js object; the
    callback passed to [useFrame] mutates the [rotation] and [position] of
    that object in place.  Here the object is a record and the callback is a
    function from the elapsed time and the object to the updated object.  The
    [<Float>] wrapper of drei animates a group of its own, around the mesh, and
    never touches the mesh; it is not part of this development. *)

From Stdlib Require Import QArith Qround Qabs Lqa Lia ZArith List String.
From stdpp Require Import base list.
From Stdlib Require Import Ascii.
From Stdlib Require Import PrimFloat.

#[local] Set Warnings "-inexact-float".
Import ListNotations.

Set Default Proof Using "Type".

(** ** JavaScript numbers *)

Inductive number : Type :=
  | NaN
  | Num (q : Q).

Declare Scope js_scope.
Delimit Scope js_scope with js.
Bind Scope js_scope with number.

(** The arithmetic and the comparison of numbers. *)
Module JS.

Definition add (a b : number) : number :=
  match a, b with
  | Num p, Num q => Num (p + q)
  | _, _ => NaN
  end.

Definition sub (a b : number) : number :=
  match a, b with
  | Num p, Num q => Num (p - q)
  | _, _ => NaN
  end.

Definition mul (a b : number) : number :=
  match a, b with
  | Num p, Num q => Num (p * q)
  | _, _ => NaN
  end.

(** [a < b] of JavaScript: false as soon as one side is [NaN]. *)
Definition lt (a b : number) : bool :=
  match a, b with
  | Num p, Num q => negb (Qle_bool q p)
  | _, _ => false
  end.

(** Division by a non-zero number; a zero divisor would give an infinity,
    which is not modelled, and is never met below. *)
Definition div (a b : number) : number :=
  match a, b with
  | Num p, Num q => if Qeq_bool q 0 then NaN else Num (p / q)
  | _, _ => NaN
  end.

End JS.

Infix "+" := JS.add : js_scope.
Infix "-" := JS.sub : js_scope.
Infix "*" := JS.mul : js_scope.
Infix "/" := JS.div : js_scope.
Infix "<" := JS.lt : js_scope.

Definition isNaN (a : number) : bool :=
  match a with NaN => true | Num _ => false end.

(** Equality of numbers up to the representation of the rational. *)
Definition same (a b : number) : Prop :=
  match a, b with
  | NaN, NaN => True
  | Num p, Num q => (p == q)%Q
  | _, _ => False
  end.

(** A number of the host is an integer literal or a loop counter. *)
Definition of_nat (n : nat) : number := Num (inject_Z (Z.of_nat n)).

(** A default parameter value: [x = d] in a destructured props object. *)
Definition dflt {A : Type} (d : A) (o : option A) : A :=
  match o with Some a => a | None => d end.

(** ** three.js objects *)

Record Vector3 : Type := mkVector3 { x : number; y : number; z : number }.

Record Euler : Type := mkEuler { ex : number; ey : number; ez : number }.

Record Object3D : Type := mkObject3D { position : Vector3; rotation : Euler }.

(** In-place assignments [o.rotation.x = v], ... *)
Definition set_rotation_x (v : number) (o : Object3D) : Object3D :=
  mkObject3D (position o) (mkEuler v (ey (rotation o)) (ez (rotation o))).

Definition set_rotation_y (v : number) (o : Object3D) : Object3D :=
  mkObject3D (position o) (mkEuler (ex (rotation o)) v (ez (rotation o))).

Definition set_rotation_z (v : number) (o : Object3D) : Object3D :=
  mkObject3D (position o) (mkEuler (ex (rotation o)) (ey (rotation o)) v).

Definition set_position_y (v : number) (o : Object3D) : Object3D :=
  mkObject3D (mkVector3 (x (position o)) v (z (position o))) (rotation o).

(** [position={[a, b, c]}] and [rotation={[a, b, c]}] of a JSX element. *)
Definition tuple3 : Type := (number * number * number)%type.

Definition vec (p : tuple3) : Vector3 :=
  let '(a, b, c) := p in mkVector3 a b c.

Definition eul (p : tuple3) : Euler :=
  let '(a, b, c) := p in mkEuler a b c.

(** [p[1]] *)
Definition item1 (p : tuple3) : number := snd (fst p).

Definition xyz (a b c : Q) : tuple3 := (Num a, Num b, Num c).

Arguments xyz (a b c)%_Q.

Definition origin : tuple3 := xyz 0 0 0.

(** [Math.PI], the double nearest to pi: 884279719003555 / 2^48. *)
Definition Math_PI : number := Num (884279719003555 # 281474976710656).

(** ** The animated components

    One constructor per component of the five skins, carrying its props.
    Optional props are [option]s; the default written in the component's
    parameter list is applied where the prop is read. *)

Inductive Component : Type :=
  (* Design1 *)
  | CosmicOrb (position : tuple3) (color : string)
              (speed distort size : option number)
  | FloatingRing (position : tuple3) (color : string)
  | ParticleField (count : option number) (isDark : bool)
  (* Design3 *)
  | GlassOrb (position : tuple3) (color : string) (size : option number)
  (* Design5 *)
  | OrganicBlob (position : tuple3) (color : string) (size : option number)
  | LeafShape (position : tuple3) (color : string) (rotation : option tuple3)
  (* Design4 *)
  | NeonTorus (position : tuple3) (color : string)
  | NeonOctahedron (position : tuple3) (color : string)
  (* Design2 *)
  | GeoBlock (position : tuple3) (color : string) (rotation : option tuple3)
  | GeoCylinder (position : tuple3) (color : string)
  | GeoSphere (position : tuple3) (color : string) (size : option number).

(** The object behind the component's ref when it mounts: the [position] and
    [rotation] props of the [<mesh>] (or [<points>]) element, the origin and
    the zero rotation where the element gives none. *)
Definition mount (c : Component) : Object3D :=
  match c with
  | CosmicOrb p _ _ _ _ => mkObject3D (vec p) (eul origin)
  | FloatingRing p _ => mkObject3D (vec p) (eul origin)
  | ParticleField _ _ => mkObject3D (vec origin) (eul origin)
  | GlassOrb p _ _ => mkObject3D (vec p) (eul origin)
  | OrganicBlob p _ _ => mkObject3D (vec p) (eul origin)
  | LeafShape p _ r => mkObject3D (vec p) (eul (dflt origin r))
  | NeonTorus p _ => mkObject3D (vec p) (eul origin)
  | NeonOctahedron p _ => mkObject3D (vec p) (eul origin)
  | GeoBlock p _ r => mkObject3D (vec p) (eul (dflt origin r))
  | GeoCylinder p _ => mkObject3D (vec p) (eul origin)
  | GeoSphere p _ _ => mkObject3D (vec p) (eul origin)
  end.

(** The six scalars of a transform, and what one frame does to each. *)
Inductive Slot : Type :=
  | position_x | position_y | position_z
  | rotation_x | rotation_y | rotation_z.

Definition get (s : Slot) (o : Object3D) : number :=
  match s with
  | position_x => x (position o)
  | position_y => y (position o)
  | position_z => z (position o)
  | rotation_x => ex (rotation o)
  | rotation_y => ey (rotation o)
  | rotation_z => ez (rotation o)
  end.

Inductive Write : Type :=
  | Keep                              (* the callback does not write the slot *)
  | Accumulate (inc : number)         (* [slot += inc] *)
  | Assign (f : number -> number).    (* [slot = f(elapsedTime)] *)

(** ** Exceptions, typed arrays and the mounted particle field *)

Inductive Error : Type := RangeError.

(** The outcome of an evaluation that may throw. *)
Inductive completion (A : Type) : Type :=
  | Normal (a : A)
  | Throw (e : Error).

Arguments Normal {A} a.
Arguments Throw {A} e.

(** Truncation towards zero, the [ToIntegerOrInfinity] of a finite number. *)
Definition Qtruncate (q : Q) : Z :=
  if Qle_bool 0 q then Qfloor q else Qceiling q.

(** [ToIndex]: the length is truncated towards zero ([NaN] counts as 0); a
    [RangeError] is thrown outside [0, 2^53 - 1]. *)
Definition ToIndex (len : number) : completion nat :=
  match len with
  | NaN => Normal 0%nat
  | Num q =>
      let n := Qtruncate q in
      if ((n <? 0) || (2 ^ 53 - 1 <? n))%Z then Throw RangeError
      else Normal (Z.to_nat n)
  end.

(** [new Float32Array(len)]: a new array of [ToIndex(len)] zeros. *)
Definition Float32Array (len : number) : completion (list number) :=
  match ToIndex len with
  | Normal n => Normal (replicate n (Num 0))
  | Throw e => Throw e
  end.

(** [Object.is] on numbers. *)
Definition Object_is (a b : number) : bool :=
  match a, b with
  | NaN, NaN => true
  | Num p, Num q => Qeq_bool p q
  | _, _ => false
  end.

(** The number of iterations of [for (let i = 0; i < count; i++)]: the
    number of naturals below [count], none when [count] is [NaN]. *)
Definition trip_count (count : number) : nat :=
  match count with
  | NaN => 0%nat
  | Num q => Z.to_nat (Qceiling q)
  end.

(** The mounted particle field: the cell of [useMemo] (its dependency
    [count] and the memoised [Float32Array]), the [<points>] object behind the
    ref and the colour of its material. *)
Record Points : Type := mkPoints {
  memo : number * list number;
  points : Object3D;
  material_color : string
}.

(** The [i]-th particle of a buffer with [itemSize = 3]. *)
Definition particle (pos : list number) (i : nat) : option Vector3 :=
  match pos !! (i * 3)%nat, pos !! (i * 3 + 1)%nat, pos !! (i * 3 + 2)%nat with
  | Some a, Some b, Some c => Some (mkVector3 a b c)
  | _, _, _ => None
  end.

(** What happens to a mounted particle field: a frame, or a render caused
    by a change of the theme. *)
Inductive Event : Type :=
  | Tick (t : number)
  | Rerender (isDark : bool).

Section Host.

(** [Math.sin] on finite numbers, and the successive results of
    [Math.random()]. *)
Variable sin : Q -> Q.
Variable random : nat -> Q.

Definition Math_sin (a : number) : number :=
  match a with NaN => NaN | Num q => Num (sin q) end.

(** *** The [useFrame] callbacks

    Each definition is the body of the callback a component passes to
    [useFrame], run on the object [o] behind its ref with
    [state.clock.elapsedTime = t]; the statements are applied in the order
    of the source. *)

Definition CosmicOrb_frame (speed : number) (t : number) (o : Object3D) : Object3D :=
  let o := set_rotation_x (Math_sin (t * speed * Num 0.3) * Num 0.2)%js o in
  set_rotation_y (ey (rotation o) + Num 0.003 * speed)%js o.

Definition FloatingRing_frame (t : number) (o : Object3D) : Object3D :=
  let o := set_rotation_x (t * Num 0.2)%js o in
  set_rotation_z (Math_sin (t * Num 0.3) * Num 0.5)%js o.

Definition ParticleField_frame (t : number) (o : Object3D) : Object3D :=
  let o := set_rotation_y (t * Num 0.02)%js o in
  set_rotation_x (Math_sin (t * Num 0.01) * Num 0.1)%js o.

Definition GlassOrb_frame (position : tuple3) (t : number) (o : Object3D) : Object3D :=
  let o := set_rotation_y (ey (rotation o) + Num 0.003)%js o in
  set_position_y (item1 position + Math_sin (t * Num 0.5) * Num 0.3)%js o.

Definition OrganicBlob_frame (t : number) (o : Object3D) : Object3D :=
  let o := set_rotation_y (ey (rotation o) + Num 0.002)%js o in
  set_rotation_x (Math_sin (t * Num 0.2) * Num 0.1)%js o.

Definition LeafShape_frame (t : number) (o : Object3D) : Object3D :=
  let o := set_rotation_z (Math_sin (t * Num 0.3) * Num 0.15)%js o in
  set_rotation_y (ey (rotation o) + Num 0.003)%js o.

Definition NeonTorus_frame (t : number) (o : Object3D) : Object3D :=
  let o := set_rotation_x (t * Num 0.3)%js o in
  set_rotation_y (t * Num 0.2)%js o.

Definition NeonOctahedron_frame (t : number) (o : Object3D) : Object3D :=
  let o := set_rotation_y (ey (rotation o) + Num 0.01)%js o in
  set_rotation_z (Math_sin (t * Num 0.4) * Num 0.3)%js o.

Definition GeoBlock_frame (t : number) (o : Object3D) : Object3D :=
  let o := set_rotation_y (ey (rotation o) + Num 0.005)%js o in
  set_rotation_x (Math_sin (t * Num 0.3) * Num 0.1)%js o.

Definition GeoCylinder_frame (t : number) (o : Object3D) : Object3D :=
  set_rotation_z (t * Num 0.2)%js o.

Definition GeoSphere_frame (position : tuple3) (t : number) (o : Object3D) : Object3D :=
  set_position_y (item1 position + Math_sin (t * Num 0.5) * Num 0.2)%js o.

(** The callback registered by a component with given props. *)
Definition useFrame (c : Component) : number -> Object3D -> Object3D :=
  match c with
  | CosmicOrb _ _ speed _ _ => CosmicOrb_frame (dflt (Num 1) speed)
  | FloatingRing _ _ => FloatingRing_frame
  | ParticleField _ _ => ParticleField_frame
  | GlassOrb position _ _ => GlassOrb_frame position
  | OrganicBlob _ _ _ => OrganicBlob_frame
  | LeafShape _ _ _ => LeafShape_frame
  | NeonTorus _ _ => NeonTorus_frame
  | NeonOctahedron _ _ => NeonOctahedron_frame
  | GeoBlock _ _ _ => GeoBlock_frame
  | GeoCylinder _ _ => GeoCylinder_frame
  | GeoSphere position _ _ => GeoSphere_frame position
  end.

(** The frame loop on one object: one call of the callback per tick, with
    the elapsed times of the ticks in order. *)
Definition frames (c : Component) (ts : list number) (o : Object3D) : Object3D :=
  fold_left (fun o t => useFrame c t o) ts o.

(** What the callback of [c] does to each slot, read off the bodies above
    ([useFrame_writes] below is the proof that it is read right). *)
Definition writes (c : Component) (s : Slot) : Write :=
  match c, s with
  | CosmicOrb _ _ speed _ _, rotation_x =>
      Assign (fun t => Math_sin (t * dflt (Num 1) speed * Num 0.3) * Num 0.2)%js
  | CosmicOrb _ _ speed _ _, rotation_y =>
      Accumulate (Num 0.003 * dflt (Num 1) speed)%js
  | FloatingRing _ _, rotation_x => Assign (fun t => t * Num 0.2)%js
  | FloatingRing _ _, rotation_z => Assign (fun t => Math_sin (t * Num 0.3) * Num 0.5)%js
  | ParticleField _ _, rotation_y => Assign (fun t => t * Num 0.02)%js
  | ParticleField _ _, rotation_x => Assign (fun t => Math_sin (t * Num 0.01) * Num 0.1)%js
  | GlassOrb _ _ _, rotation_y => Accumulate (Num 0.003)
  | GlassOrb position _ _, position_y =>
      Assign (fun t => item1 position + Math_sin (t * Num 0.5) * Num 0.3)%js
  | OrganicBlob _ _ _, rotation_y => Accumulate (Num 0.002)
  | OrganicBlob _ _ _, rotation_x => Assign (fun t => Math_sin (t * Num 0.2) * Num 0.1)%js
  | LeafShape _ _ _, rotation_z => Assign (fun t => Math_sin (t * Num 0.3) * Num 0.15)%js
  | LeafShape _ _ _, rotation_y => Accumulate (Num 0.003)
  | NeonTorus _ _, rotation_x => Assign (fun t => t * Num 0.3)%js
  | NeonTorus _ _, rotation_y => Assign (fun t => t * Num 0.2)%js
  | NeonOctahedron _ _, rotation_y => Accumulate (Num 0.01)
  | NeonOctahedron _ _, rotation_z => Assign (fun t => Math_sin (t * Num 0.4) * Num 0.3)%js
  | GeoBlock _ _ _, rotation_y => Accumulate (Num 0.005)
  | GeoBlock _ _ _, rotation_x => Assign (fun t => Math_sin (t * Num 0.3) * Num 0.1)%js
  | GeoCylinder _ _, rotation_z => Assign (fun t => t * Num 0.2)%js
  | GeoSphere position _ _, position_y =>
      Assign (fun t => item1 position + Math_sin (t * Num 0.5) * Num 0.2)%js
  | _, _ => Keep
  end.

(** *** The particle field's position buffer *)

(** [(Math.random() - 0.5) * w], at the [k]-th call of [Math.random()]. *)
Definition coordinate (w : Q) (k : nat) : number :=
  ((Num (random k) - Num 0.5) * Num w)%js.

(** One iteration of the loop of [ParticleField]: three calls of
    [Math.random()], the [k]-th and the two after it, and three stores.  A
    store past the end of a typed array is ignored, as is [<[_:=_]>]. *)
Definition fill (i : nat) (st : list number * nat) : list number * nat :=
  let '(pos, k) := st in
  let pos := <[(i * 3)%nat := coordinate 20 k]> pos in
  let pos := <[(i * 3 + 1)%nat := coordinate 20 (k + 1)]> pos in
  let pos := <[(i * 3 + 2)%nat := coordinate 10 (k + 2)]> pos in
  (pos, (k + 3)%nat).

(** The function memoised by [useMemo] in [ParticleField]; [k] calls of
    [Math.random()] were made before, the second component of the result
    counts the calls made so far. *)
Definition positions (count : number) (k : nat) : completion (list number * nat) :=
  match Float32Array (count * Num 3)%js with
  | Normal pos =>
      Normal (fold_left (fun st i => fill i st) (seq 0 (trip_count count)) (pos, k))
  | Throw e => Throw e
  end.

(** [useMemo(f, [count])]: the cached buffer is kept while the dependency
    is the same value ([Object.is]). *)
Definition useMemo (count : number) (cell : option (number * list number)) (k : nat)
  : completion (number * list number * nat) :=
  let compute :=
    match positions count k with
    | Normal (pos, k') => Normal (count, pos, k')
    | Throw e => Throw e
    end in
  match cell with
  | Some (dep, pos) => if Object_is dep count then Normal (dep, pos, k) else compute
  | None => compute
  end.

(** A render of [ParticleField]: the first one ([prev = None]) creates the
    [<points>] object, a later one keeps it; both go through [useMemo] and
    resolve the colour of the material from [isDark]. *)
Definition ParticleField_render (count : option number) (isDark : bool)
    (prev : option Points) (k : nat) : completion (Points * nat) :=
  match useMemo (dflt (Num 200) count) (option_map memo prev) k with
  | Normal (dep, pos, k') =>
      Normal (mkPoints (dep, pos)
                (match prev with
                 | Some p => points p
                 | None => mount (ParticleField count isDark)
                 end)
                (if isDark then "#c4b5fd" else "#7c3aed")%string,
              k')
  | Throw e => Throw e
  end.

(** One event on a particle field rendered with the prop [count]. *)
Definition step (count : option number) (st : completion (Points * nat)) (e : Event)
  : completion (Points * nat) :=
  match st with
  | Throw err => Throw err
  | Normal (p, k) =>
      match e with
      | Tick t =>
          Normal (mkPoints (memo p) (ParticleField_frame t (points p)) (material_color p), k)
      | Rerender isDark => ParticleField_render count isDark (Some p) k
      end
  end.

(** The life of a particle field: mounted, then the events in order. *)
Definition run (count : option number) (isDark : bool) (k : nat) (es : list Event)
  : completion (Points * nat) :=
  fold_left (step count) es (ParticleField_render count isDark None k).

End Host.

(** ** The five scenes *)

(** The children of a [<Canvas>]. *)
Inductive Node : Type :=
  | ambientLight (intensity : number) (color : option string)
  | directionalLight (position : tuple3) (intensity : number) (color : option string)
  | pointLight (position : tuple3) (intensity : number) (color : string)
  | animated (c : Component)
  | mesh (position : tuple3) (rotation : option tuple3)
         (geometry : string) (args : list number) (color : string).

Record Canvas : Type := mkCanvas {
  camera_position : tuple3;
  camera_fov : number;
  children : list Node
}.

Module BOTAN.
Definition terracotta : string := "#C0654A".
Definition sage : string := "#8B9E6B".
Definition olive : string := "#6B7F4E".
End BOTAN.

Module NEO.
Definition cyan : string := "#00f5ff".
Definition pink : string := "#ff2d6f".
Definition purple : string := "#b829dd".
End NEO.

Module COLORS.
Definition red : string := "#E63946".
Definition yellow : string := "#FFB703".
Definition blue : string := "#2B59C3".
End COLORS.

(** Design1 *)
Definition CosmicScene (isDark : bool) : Canvas :=
  mkCanvas (xyz 0 0 6) (Num 60)
    [ ambientLight (Num 0.4) None;
      directionalLight (xyz 5 5 5) (Num 1) (Some (if isDark then "#a78bfa" else "#7c3aed")%string);
      pointLight (xyz (-3) (-3) 2) (Num 0.8) "#c084fc";
      pointLight (xyz 3 2 (-2)) (Num 0.5) "#818cf8";
      animated (CosmicOrb (xyz (-2.5) 1 (-1)) (if isDark then "#7c3aed" else "#a78bfa")
                  (Some (Num 0.8)) (Some (Num 0.5)) (Some (Num 0.8)));
      animated (CosmicOrb (xyz 2.8 (-0.5) 0) (if isDark then "#6366f1" else "#818cf8")
                  (Some (Num 1.2)) (Some (Num 0.3)) (Some (Num 0.6)));
      animated (CosmicOrb (xyz 0.5 2 (-2)) "#c084fc"
                  (Some (Num 0.6)) (Some (Num 0.6)) (Some (Num 0.5)));
      animated (CosmicOrb (xyz (-1.5) (-2) 1) "#a78bfa"
                  (Some (Num 1)) (Some (Num 0.4)) (Some (Num 0.4)));
      animated (FloatingRing (xyz 1.5 1.5 (-1)) (if isDark then "#a78bfa" else "#7c3aed"));
      animated (FloatingRing (xyz (-2) (-1) 0) "#818cf8");
      animated (ParticleField None isDark) ].

(** Design3; the scene receives [isDark] and does not use it. *)
Definition AuroraScene (_isDark : bool) : Canvas :=
  mkCanvas (xyz 0 0 6) (Num 55)
    [ ambientLight (Num 0.5) None;
      directionalLight (xyz 5 5 5) (Num 0.8) (Some "#22d3ee"%string);
      pointLight (xyz (-3) 2 3) (Num 0.6) "#a78bfa";
      pointLight (xyz 3 (-2) 2) (Num 0.4) "#34d399";
      animated (GlassOrb (xyz (-2.5) 1.2 (-1)) "#22d3ee" (Some (Num 0.7)));
      animated (GlassOrb (xyz 2.8 (-0.5) 0) "#a78bfa" (Some (Num 0.5)));
      animated (GlassOrb (xyz 0.5 2.2 (-2)) "#34d399" (Some (Num 0.4)));
      animated (GlassOrb (xyz (-1.2) (-1.8) 0.5) "#f472b6" (Some (Num 0.55))) ].

(** Design5; the scene receives [isDark] and does not use it. *)
Definition BotanicalScene (_isDark : bool) : Canvas :=
  mkCanvas (xyz 0 0 6) (Num 50)
    [ ambientLight (Num 0.8) (Some "#faf5ef"%string);
      directionalLight (xyz 5 5 5) (Num 0.8) (Some "#faf5ef"%string);
      pointLight (xyz (-3) 2 3) (Num 0.4) BOTAN.terracotta;
      pointLight (xyz 3 (-2) 2) (Num 0.3) BOTAN.sage;
      animated (OrganicBlob (xyz (-2.8) 1.2 (-1)) BOTAN.terracotta (Some (Num 0.8)));
      animated (OrganicBlob (xyz 3 (-0.8) 0) BOTAN.sage (Some (Num 0.6)));
      animated (OrganicBlob (xyz 0.5 2.3 (-2)) BOTAN.olive (Some (Num 0.5)));
      animated (LeafShape (xyz (-1.5) (-1.8) 0.5) BOTAN.sage None);
      animated (LeafShape (xyz 2 1.5 (-1.5)) BOTAN.olive (Some (xyz 0.5 0 0.3))) ].

(** Design4; the scene takes no props. *)
Definition CyberScene : Canvas :=
  mkCanvas (xyz 0 0 6) (Num 55)
    [ ambientLight (Num 0.2) None;
      pointLight (xyz 3 3 3) (Num 1) NEO.cyan;
      pointLight (xyz (-3) (-2) 2) (Num 0.8) NEO.pink;
      pointLight (xyz 0 2 (-3)) (Num 0.5) NEO.purple;
      animated (NeonTorus (xyz (-2.5) 1 (-1)) NEO.cyan);
      animated (NeonTorus (xyz 2.5 (-0.5) 0) NEO.pink);
      animated (NeonOctahedron (xyz 1 2 (-2)) NEO.purple);
      animated (NeonOctahedron (xyz (-1.5) (-1.5) 0.5) NEO.cyan);
      mesh (xyz 0 0 (-3)) None "planeGeometry" [Num 20; Num 20; Num 20; Num 20] "#0a0a12" ].

(** Design2; the scene takes no props. *)
Definition BauhausScene : Canvas :=
  mkCanvas (xyz 0 0 7) (Num 50)
    [ ambientLight (Num 0.6) None;
      directionalLight (xyz 5 5 5) (Num 1.2) None;
      pointLight (xyz (-5) 3 2) (Num 0.6) COLORS.yellow;
      animated (GeoBlock (xyz (-3) 1.5 (-1)) COLORS.red None);
      animated (GeoBlock (xyz 3 (-1) 0) COLORS.blue (Some (xyz 0.5 0.5 0)));
      animated (GeoCylinder (xyz 2.5 2 (-2)) COLORS.yellow);
      animated (GeoSphere (xyz (-2.5) (-1.5) 0.5) COLORS.yellow (Some (Num 0.7)));
      animated (GeoSphere (xyz 0.5 2.5 (-1)) COLORS.red (Some (Num 0.4)));
      mesh (xyz (-1) (-2) (-1)) (Some (Num 0, Num 0, (Math_PI / Num 4)%js))
           "boxGeometry" [Num 0.8; Num 0.8; Num 0.8] COLORS.blue ].

(** The skins and the scene each one mounts under a theme. *)
Inductive Skin : Type := Design1 | Design2 | Design3 | Design4 | Design5.

Definition scene (d : Skin) (isDark : bool) : Canvas :=
  match d with
  | Design1 => CosmicScene isDark
  | Design2 => BauhausScene
  | Design3 => AuroraScene isDark
  | Design4 => CyberScene
  | Design5 => BotanicalScene isDark
  end.

(** The animated components of a scene, in the order of the JSX. *)
Definition components (s : Canvas) : list Component :=
  flat_map (fun n => match n with animated c => [c] | _ => [] end) (children s).

(** *** The theme-independent part of a scene

    [geometry] blanks exactly the colour attributes: the [color] of lights,
    materials and components, and the [isDark] prop of the particle field,
    which that component reads for the colour of its material only. *)
Definition Component_geometry (c : Component) : Component :=
  match c with
  | CosmicOrb p _ speed distort size => CosmicOrb p "" speed distort size
  | FloatingRing p _ => FloatingRing p ""
  | ParticleField count _ => ParticleField count false
  | GlassOrb p _ size => GlassOrb p "" size
  | OrganicBlob p _ size => OrganicBlob p "" size
  | LeafShape p _ r => LeafShape p "" r
  | NeonTorus p _ => NeonTorus p ""
  | NeonOctahedron p _ => NeonOctahedron p ""
  | GeoBlock p _ r => GeoBlock p "" r
  | GeoCylinder p _ => GeoCylinder p ""
  | GeoSphere p _ size => GeoSphere p "" size
  end.

Definition Node_geometry (n : Node) : Node :=
  match n with
  | ambientLight i _ => ambientLight i None
  | directionalLight p i _ => directionalLight p i None
  | pointLight p i _ => pointLight p i ""
  | animated c => animated (Component_geometry c)
  | mesh p r g a _ => mesh p r g a ""
  end.

Definition geometry (s : Canvas) : Canvas :=
  mkCanvas (camera_position s) (camera_fov s) (map Node_geometry (children s)).

(** ** Tick sequences and a sample host *)

(** The elapsed times of [rate] ticks per second over [seconds] seconds:
    the [k]-th tick comes at [k / rate], a fraction in lowest terms. *)
Definition ticks (rate seconds : nat) : list number :=
  map (fun k => Num (Qred (Z.of_nat k # Pos.of_nat rate))) (seq 1 (rate * seconds)).

(** The elapsed times of [n] frames at the fixed virtual step [dt]. *)
Definition steps (n : nat) (dt : number) : list number :=
  map (fun k => (of_nat k * dt)%js) (seq 1 n).

(** Two transforms agree within [eps] on a slot. *)
Definition within (eps : Q) (a b : number) : Prop :=
  match a, b with
  | Num p, Num q => (Qabs (p - q) <= eps)%Q
  | NaN, NaN => True
  | _, _ => False
  end.

(** Frame-rate independence of a component over a duration: mounted, then
    run at 60 and at 30 ticks per second, it ends with the same transform
    within [eps]. *)
Definition frame_rate_independent (sin : Q -> Q) (eps : Q) (c : Component)
    (seconds : nat) : Prop :=
  forall s : Slot,
    within eps (get s (frames sin c (ticks 60 seconds) (mount c)))
               (get s (frames sin c (ticks 30 seconds) (mount c))).

(** The claim that a component holds its transform on a frame whose elapsed
    time is [NaN] or negative. *)
Definition holds_on_invalid_time (sin : Q -> Q) (c : Component) : Prop :=
  forall (t : number) (o : Object3D),
    isNaN t = true \/ (t < Num 0)%js = true -> useFrame sin c t o = o.

(** A number of moderate size, far below the range of the doubles, and
    props of moderate size where a callback reads them: the [speed] of an
    orb, the height [position[1]] of a bobbing sphere.  Products of two
    moderate doubles do not overflow. *)
Definition moderate (a : number) : Prop :=
  match a with
  | Num q => (Qabs q <= inject_Z (2 ^ 500))%Q
  | NaN => False
  end.

Definition moderate_props (c : Component) : Prop :=
  match c with
  | CosmicOrb _ _ speed _ _ => moderate (dflt (Num 1) speed)
  | GlassOrb position _ _ => moderate (item1 position)
  | GeoSphere position _ _ => moderate (item1 position)
  | _ => True
  end.

(** The [position] prop of a component; [<points>] has none and sits at the
    origin. *)
Definition base_position (c : Component) : tuple3 :=
  match c with
  | CosmicOrb p _ _ _ _ | FloatingRing p _ | GlassOrb p _ _ | OrganicBlob p _ _
  | LeafShape p _ _ | NeonTorus p _ | NeonOctahedron p _ | GeoBlock p _ _
  | GeoCylinder p _ | GeoSphere p _ _ => p
  | ParticleField _ _ => origin
  end.

(** A finite number in the closed interval from [lo] to [hi]. *)
Definition between (lo hi : Q) (a : number) : Prop :=
  match a with
  | Num q => (lo <= q)%Q /\ (q <= hi)%Q
  | NaN => False
  end.

(** A host to instantiate the theorems at: a polynomial for [Math.sin] and
    a periodic sequence in [0, 1) for [Math.random()].  No theorem depends on
    this choice. *)
Module Sample.
Definition sin (q : Q) : Q := (q - q * q * q / 6 + q * q * q * q * q / 120)%Q.
Definition random (k : nat) : Q := (inject_Z (Z.of_nat (k * 7 mod 10)) / 10)%Q.
End Sample.

(** ** Definitions for the further properties *)

(** The band of a slot that a callback drives by a sine: its centre and its
    amplitude ([centre + sin(..) * amplitude] in the callback). *)
Definition amplitude (c : Component) (s : Slot) : option (number * Q) :=
  match c, s with
  | CosmicOrb _ _ _ _ _, rotation_x => Some (Num 0, 0.2%Q)
  | FloatingRing _ _, rotation_z => Some (Num 0, 0.5%Q)
  | ParticleField _ _, rotation_x => Some (Num 0, 0.1%Q)
  | GlassOrb position _ _, position_y => Some (item1 position, 0.3%Q)
  | OrganicBlob _ _ _, rotation_x => Some (Num 0, 0.1%Q)
  | LeafShape _ _ _, rotation_z => Some (Num 0, 0.15%Q)
  | NeonOctahedron _ _, rotation_z => Some (Num 0, 0.3%Q)
  | GeoBlock _ _ _, rotation_x => Some (Num 0, 0.1%Q)
  | GeoSphere position _ _, position_y => Some (item1 position, 0.2%Q)
  | _, _ => None
  end.

(** The width of the box along the axis stored at index [j] of the buffer:
    20 for x and y, 10 for z. *)
Definition width (j : nat) : Q := if (j mod 3 =? 2)%nat then 10%Q else 20%Q.

(** A second host, whose [sin] stays within [-1, 1] as [Math.sin] does. *)
Module SampleBounded.
Definition sin (q : Q) : Q := (2 * q / (1 + q * q))%Q.
End SampleBounded.

(** ** The navigation bar

    [Nav] keeps one piece of state, [scrolled], set by a listener of the
    [scroll] event of [window]; an effect with no dependency adds the
    listener when the bar mounts and removes it when the bar unmounts. *)

(** What the bars use of [window]: the scroll offset and the listeners of
    [scroll], each callback identified by a number. *)
Record Window : Type := mkWindow { scrollY : number; listeners : list nat }.

(** [window.addEventListener('scroll', h)]: a callback already listening is
    not added again. *)
Definition addEventListener (h : nat) (w : Window) : Window :=
  mkWindow (scrollY w)
    (if decide (h ∈ listeners w) then listeners w else listeners w ++ [h]).

(** [window.removeEventListener('scroll', h)] *)
Definition removeEventListener (h : nat) (w : Window) : Window :=
  mkWindow (scrollY w) (filter (fun h' => h' <> h) (listeners w)).

(** The page: its window and the state of the bar, [None] while no bar is
    mounted. *)
Record Page : Type := mkPage { window : Window; scrolled : option bool }.

(** The value the callback passes to [setScrolled]: [window.scrollY > 50]. *)
Definition handler (w : Window) : bool := (Num 50 < scrollY w)%js.

(** The bar mounts: [useState(false)], then the effect. *)
Definition Nav_mount (h : nat) (p : Page) : Page :=
  mkPage (addEventListener h (window p)) (Some false).

(** The bar unmounts: the cleanup of the effect, and the state is gone. *)
Definition Nav_unmount (h : nat) (p : Page) : Page :=
  mkPage (removeEventListener h (window p)) None.

(** The page is scrolled to [y]: the offset changes, then the listeners
    run; the callback [h] of the bar, if it listens, sets the state of a
    mounted bar. *)
Definition scroll (h : nat) (y : number) (p : Page) : Page :=
  let w := mkWindow y (listeners (window p)) in
  mkPage w
    (if decide (h ∈ listeners w)
     then match scrolled p with Some _ => Some (handler w) | None => None end
     else scrolled p).

Definition scrolls (h : nat) (ys : list number) (p : Page) : Page :=
  fold_left (fun p y => scroll h y p) ys p.

(** The styles of the bar of Design1 that depend on [scrolled]. *)
Record NavStyle : Type := mkNavStyle {
  background : string;
  backdropFilter : string;
  borderBottom : string
}.

Definition Nav_style (isDark scrolled : bool) : NavStyle :=
  mkNavStyle
    (if scrolled
     then (if isDark then "rgba(5,2,18,0.85)" else "rgba(255,255,255,0.85)")
     else "transparent")
    (if scrolled then "blur(20px) saturate(1.5)" else "none")
    (if scrolled
     then "1px solid " ++ (if isDark then "rgba(139,92,246,0.15)" else "rgba(124,58,237,0.1)")
     else "none")%string.

(** ** The anchors of the navigation links

    [`#${item.toLowerCase().replace(/\s/g, '-')}`] on strings of ASCII
    characters, which the items of the bar are. *)

Definition is_upper (c : ascii) : bool :=
  (65 <=? nat_of_ascii c)%nat && (nat_of_ascii c <=? 90)%nat.

(** The characters of the class [\s] among ASCII: tab, line feed, vertical
    tab, form feed, carriage return and space. *)
Definition is_space (c : ascii) : bool :=
  ((9 <=? nat_of_ascii c)%nat && (nat_of_ascii c <=? 13)%nat)
  || (nat_of_ascii c =? 32)%nat.

Definition lower (c : ascii) : ascii :=
  if is_upper c then ascii_of_nat (nat_of_ascii c + 32) else c.

Fixpoint toLowerCase (s : string) : string :=
  match s with
  | EmptyString => EmptyString
  | String c s => String (lower c) (toLowerCase s)
  end.

(** [s.replace(/\s/g, '-')] *)
Fixpoint replace_spaces (s : string) : string :=
  match s with
  | EmptyString => EmptyString
  | String c s => String (if is_space c then "-"%char else c) (replace_spaces s)
  end.

Definition href (item : string) : string :=
  ("#" ++ replace_spaces (toLowerCase item))%string.

(** All characters of a string are ASCII. *)
Fixpoint ascii_only (s : string) : Prop :=
  match s with
  | EmptyString => True
  | String c s => (nat_of_ascii c < 128)%nat /\ ascii_only s
  end.

(** No character of a string satisfies [f]. *)
Fixpoint none_of (f : ascii -> bool) (s : string) : Prop :=
  match s with
  | EmptyString => True
  | String c s => f c = false /\ none_of f s
  end.

(** ** The routes of [App]

    What [Routes] renders for a pathname: the element of the first route
    whose path matches, the five static paths before the catch-all [*].  The
    matching of a path against a pathname is the router's, a parameter
    here. *)
Inductive Element : Type :=
  | Lazy (d : Skin)
  | Navigate (to : string) (replace : bool).

Definition App (matchPath : string -> string -> bool) (pathname : string) : Element :=
  if matchPath "/1"%string pathname then Lazy Design1
  else if matchPath "/2"%string pathname then Lazy Design2
  else if matchPath "/3"%string pathname then Lazy Design3
  else if matchPath "/4"%string pathname then Lazy Design4
  else if matchPath "/5"%string pathname then Lazy Design5
  else Navigate "/1" true.

(** Where a navigation to [pathname] ends: a [<Navigate>] is followed
    once. *)
Definition landing (matchPath : string -> string -> bool) (pathname : string) : Element :=
  match App matchPath pathname with
  | Navigate to _ => App matchPath to
  | e => e
  end.

(** ** The marquee of Design4

    The text shown by [Marquee]: [Array(10).fill(text).join('   ///   ')]. *)
Definition Marquee_text (text : string) : string :=
  String.concat "   ///   " (replicate 10 text).

(** The frames among the events of a particle field, the renders left
    out. *)
Definition only_ticks (es : list Event) : list Event :=
  flat_map (fun e => match e with Tick t => [Tick t] | Rerender _ => [] end) es.

(** Two states of a particle field that differ in the colour of the
    material at most, the dependency in the cell of [useMemo] being the
    [count] the field is rendered with. *)
Definition same_motion (count : option number)
    (st1 st2 : completion (Points * nat)) : Prop :=
  match st1, st2 with
  | Normal (p1, k1), Normal (p2, k2) =>
      memo p1 = memo p2 /\ points p1 = points p2 /\ k1 = k2 /\
      Object_is (fst (memo p1)) (dflt (Num 200) count) = true
  | Throw e1, Throw e2 => e1 = e2
  | _, _ => False
  end.

(** ** The accumulation of [rotation.y] on doubles

    The callbacks add their increment in binary64.  The definitions of this
    module are that addition and the increments of the callbacks on the
    doubles of the machine, for the statements in which rounding decides. *)
Module Binary64.









End Binary64.

(** * Properties *)

Lemma moderate_Num (a : number) : moderate a -> exists q, a = Num q.
Proof. destruct a; [intros [] | eauto]. Qed.

Lemma lt_true (p q : Q) : (Num p < Num q)%js = true <-> (p < q)%Q.
Proof.
  simpl. rewrite negb_true_iff, <- not_true_iff_false, Qle_bool_iff.
  split; [apply Qnot_le_lt | apply Qlt_not_le].
Qed.

Section Animators.

Variable sin : Q -> Q.

(** The table [writes] says what the callbacks do. *)
Lemma useFrame_writes (c : Component) (s : Slot) (t : number) (o : Object3D) :
  get s (useFrame sin c t o) =
  match writes sin c s with
  | Keep => get s o
  | Accumulate inc => (get s o + inc)%js
  | Assign f => f t
  end.
Proof. destruct c, s; reflexivity. Qed.

Lemma frames_snoc (c : Component) (ts : list number) (t : number) (o : Object3D) :
  frames sin c (ts ++ [t]) o = useFrame sin c t (frames sin c ts o).
Proof. unfold frames. rewrite fold_left_app. reflexivity. Qed.

Lemma frames_cons (c : Component) (ts : list number) (t : number) (o : Object3D) :
  frames sin c (t :: ts) o = frames sin c ts (useFrame sin c t o).
Proof. reflexivity. Qed.

(** A slot the callback does not write keeps its value over any run. *)
Lemma frames_keep (c : Component) (s : Slot) (ts : list number) (o : Object3D) :
  writes sin c s = Keep -> get s (frames sin c ts o) = get s o.
Proof.
  intros Hw. revert o. induction ts as [|t ts IH]; intros o; [reflexivity|].
  rewrite frames_cons, IH, useFrame_writes, Hw. reflexivity.
Qed.

(** An assigned slot holds the formula at the elapsed time of the last tick. *)
Lemma frames_assign (c : Component) (s : Slot) (f : number -> number)
    (ts : list number) (t : number) (o : Object3D) :
  writes sin c s = Assign f -> get s (frames sin c (ts ++ [t]) o) = f t.
Proof. intros Hw. rewrite frames_snoc, useFrame_writes, Hw. reflexivity. Qed.

(** An accumulated slot holds its first value plus one increment per tick. *)
Lemma frames_accumulate (c : Component) (s : Slot) (inc v : Q)
    (ts : list number) (o : Object3D) :
  writes sin c s = Accumulate (Num inc) -> get s o = Num v ->
  exists v', get s (frames sin c ts o) = Num v' /\
             (v' == v + inject_Z (Z.of_nat (length ts)) * inc)%Q.
Proof.
  intros Hw. revert v o. induction ts as [|t ts IH]; intros v o Hv.
  - exists v. split; [exact Hv|]. simpl. ring.
  - destruct (IH (v + inc)%Q (useFrame sin c t o)) as (v' & Hg & Hv').
    { rewrite useFrame_writes, Hw, Hv. reflexivity. }
    exists v'. split; [exact Hg|]. rewrite Hv'.
    change (length (t :: ts)) with (S (length ts)).
    rewrite Nat2Z.inj_succ. unfold Z.succ. rewrite inject_Z_plus. ring.
Qed.

Lemma length_ticks (rate seconds : nat) :
  length (ticks rate seconds) = (rate * seconds)%nat.
Proof. unfold ticks. rewrite length_map, length_seq. reflexivity. Qed.

(** Whatever the rate, the last tick of a run comes at its duration. *)
Lemma ticks_last (rate seconds : nat) :
  (0 < rate)%nat -> (0 < seconds)%nat ->
  exists ts, ticks rate seconds = ts ++ [Num (Qred (inject_Z (Z.of_nat seconds)))].
Proof.
  intros Hr Hs. unfold ticks.
  destruct (rate * seconds)%nat as [|n] eqn:E; [nia|].
  rewrite seq_S, map_app. eexists. f_equal. simpl. do 2 f_equal.
  apply Qred_complete. unfold Qeq, inject_Z. simpl Qnum. simpl Qden.
  replace (1 + n)%nat with (rate * seconds)%nat by lia.
  rewrite <- (positive_nat_Z (Pos.of_nat rate)), Nat2Pos.id by lia.
  lia.
Qed.

Lemma steps_snoc (n : nat) (dt : number) :
  steps (S n) dt = steps n dt ++ [(of_nat (S n) * dt)%js].
Proof. unfold steps. rewrite seq_S, map_app. reflexivity. Qed.

Lemma length_steps (n : nat) (dt : number) : length (steps n dt) = n.
Proof. unfold steps. rewrite length_map, length_seq. reflexivity. Qed.

(** C1 (as amended).  Over runs of the same duration at two tick rates, a
    slot that a callback assigns from the elapsed time, or does not write,
    ends with the same value; a slot it accumulates ([rotation.y += inc])
    ends at its first value plus [inc] times the number of ticks, so it
    depends on the tick rate. *)
Theorem slots_after_equal_durations (c : Component) (s : Slot)
    (r1 r2 seconds : nat) (o : Object3D) :
  (0 < r1)%nat -> (0 < r2)%nat -> (0 < seconds)%nat ->
  match writes sin c s with
  | Accumulate inc =>
      forall i v : Q, inc = Num i -> get s o = Num v ->
        same (get s (frames sin c (ticks r1 seconds) o))
             (Num (v + inject_Z (Z.of_nat (r1 * seconds)) * i)) /\
        same (get s (frames sin c (ticks r2 seconds) o))
             (Num (v + inject_Z (Z.of_nat (r2 * seconds)) * i))
  | _ =>
      get s (frames sin c (ticks r1 seconds) o) =
      get s (frames sin c (ticks r2 seconds) o)
  end.
Proof.
  intros H1 H2 Hs.
  destruct (ticks_last r1 seconds H1 Hs) as [ts1 E1].
  destruct (ticks_last r2 seconds H2 Hs) as [ts2 E2].
  destruct (writes sin c s) as [|inc|f] eqn:Hw.
  - rewrite !frames_keep by exact Hw. reflexivity.
  - intros i v -> Hv. split.
    + destruct (frames_accumulate c s i v (ticks r1 seconds) o Hw Hv) as (v' & -> & Hv').
      rewrite length_ticks in Hv'. exact Hv'.
    + destruct (frames_accumulate c s i v (ticks r2 seconds) o Hw Hv) as (v' & -> & Hv').
      rewrite length_ticks in Hv'. exact Hv'.
  - rewrite E1, E2, !(frames_assign c s f) by exact Hw. reflexivity.
Qed.

(** C2.  The callback of the orb sets [rotation.x] to
    [sin(t * speed * 0.3) * 0.2] and adds [0.003 * speed] to [rotation.y];
    an orb with [speed = 1], mounted and run for 100 frames at a fixed step
    [dt], ends with [rotation.y] at 0.3 and [rotation.x] at the formula for
    the total elapsed time [100 * dt]. *)
Theorem CosmicOrb_hundred_frames (position : tuple3) (color : string)
    (speed distort size : option number) (t dt : number) (o : Object3D) :
  let c := CosmicOrb position color speed distort size in
  let c1 := CosmicOrb origin color (Some (Num 1)) distort size in
  let o100 := frames sin c1 (steps 100 dt) (mount c1) in
  get rotation_x (useFrame sin c t o) =
    (Math_sin sin (t * dflt (Num 1) speed * Num 0.3) * Num 0.2)%js /\
  get rotation_y (useFrame sin c t o) =
    (get rotation_y o + Num 0.003 * dflt (Num 1) speed)%js /\
  same (get rotation_y o100) (Num 0.3) /\
  get rotation_x o100 =
    (Math_sin sin (of_nat 100 * dt * Num 1 * Num 0.3) * Num 0.2)%js.
Proof.
  intros c c1 o100.
  split; [reflexivity | split; [reflexivity | split]].
  - destruct (frames_accumulate c1 rotation_y (0.003 * 1) 0 (steps 100 dt) (mount c1))
      as (v' & Hg & Hv'); [reflexivity | reflexivity |].
    unfold o100. rewrite Hg, length_steps in *. simpl. rewrite Hv'. reflexivity.
  - unfold o100. rewrite steps_snoc.
    rewrite (frames_assign c1 rotation_x _ _ _ _ eq_refl). reflexivity.
Qed.

(** C3 (as amended).  No callback looks at the elapsed time before using
    it, and none fails on it.  On a frame whose elapsed time is [NaN] or
    negative the callback runs as on any frame: a slot it accumulates
    still gets its increment, a slot it does not write keeps its value, and
    a slot it assigns from the elapsed time gets its formula at that elapsed
    time, which is [NaN] when the elapsed time is [NaN]; no slot is held at
    its last value. *)
Theorem frame_on_invalid_time (c : Component) (s : Slot) (t : number)
    (o : Object3D) :
  isNaN t = true \/ (t < Num 0)%js = true ->
  get s (useFrame sin c t o) =
    match writes sin c s with
    | Keep => get s o
    | Accumulate inc => (get s o + inc)%js
    | Assign f => f t
    end /\
  (isNaN t = true ->
   forall f, writes sin c s = Assign f -> get s (useFrame sin c t o) = NaN).
Proof.
  intros _. split; [apply useFrame_writes|].
  intros Ht f Hw. destruct t as [|q]; [clear Ht | discriminate Ht].
  rewrite useFrame_writes, Hw.
  destruct c, s; try discriminate Hw; injection Hw as <-; try reflexivity;
    simpl; destruct (item1 _); reflexivity.
Qed.

(** C5 (as amended).  The callback of the particle field assigns both
    angles from the elapsed time: [rotation.y = t * 0.02] and
    [rotation.x = sin(t * 0.01) * 0.1], whatever they were before, so after
    any run they are given by the elapsed time of the last tick alone; the
    position and [rotation.z] of the [<points>] object are kept. *)
Theorem ParticleField_frame_assigns (count : option number) (isDark : bool)
    (ts : list number) (t : number) (o : Object3D) :
  let c := ParticleField count isDark in
  get rotation_y (ParticleField_frame sin t o) = (t * Num 0.02)%js /\
  get rotation_x (ParticleField_frame sin t o) =
    (Math_sin sin (t * Num 0.01) * Num 0.1)%js /\
  get rotation_y (frames sin c (ts ++ [t]) o) = (t * Num 0.02)%js /\
  get rotation_x (frames sin c (ts ++ [t]) o) =
    (Math_sin sin (t * Num 0.01) * Num 0.1)%js /\
  get rotation_z (frames sin c (ts ++ [t]) o) = get rotation_z o /\
  position (frames sin c (ts ++ [t]) o) = position o.
Proof.
  intros c. split; [reflexivity|]. split; [reflexivity|].
  split; [exact (frames_assign c rotation_y _ ts t o eq_refl)|].
  split; [exact (frames_assign c rotation_x _ ts t o eq_refl)|].
  split; [apply (frames_keep c rotation_z); reflexivity|].
  generalize (ts ++ [t]). intros l. revert o.
  induction l as [|t' l IH]; intros o; [reflexivity|].
  rewrite frames_cons, IH. reflexivity.
Qed.

Lemma frames_position_x (c : Component) (ts : list number) (o : Object3D) :
  x (position (frames sin c ts o)) = x (position o).
Proof. apply (frames_keep c position_x). destruct c; reflexivity. Qed.

Lemma frames_position_z (c : Component) (ts : list number) (o : Object3D) :
  z (position (frames sin c ts o)) = z (position o).
Proof. apply (frames_keep c position_z). destruct c; reflexivity. Qed.

(** C9.  A callback never writes [position.x] or [position.z]; only the
    glass orb and the sphere write [position.y], to
    [position[1] + sin(t * 0.5) * amplitude] (amplitude 0.3 and 0.2), and
    every other callback leaves the position as it is.  So over any run
    from the mount, x and z stay at the [position] prop, and so does y
    except for the two bobbing components. *)
Theorem position_is_base_or_bob (c : Component) (ts : list number)
    (t : number) (o : Object3D) :
  x (position (useFrame sin c t o)) = x (position o) /\
  z (position (useFrame sin c t o)) = z (position o) /\
  match c with
  | GlassOrb p _ _ =>
      y (position (useFrame sin c t o)) =
        (item1 p + Math_sin sin (t * Num 0.5) * Num 0.3)%js
  | GeoSphere p _ _ =>
      y (position (useFrame sin c t o)) =
        (item1 p + Math_sin sin (t * Num 0.5) * Num 0.2)%js
  | _ =>
      position (useFrame sin c t o) = position o /\
      position (frames sin c ts (mount c)) = vec (base_position c)
  end /\
  x (position (frames sin c ts (mount c))) = x (vec (base_position c)) /\
  z (position (frames sin c ts (mount c))) = z (vec (base_position c)).
Proof.
  assert (Hk : match c with
               | GlassOrb _ _ _ | GeoSphere _ _ _ => True
               | _ => position (frames sin c ts (mount c)) = vec (base_position c)
               end).
  { destruct c; try exact I;
      (revert ts; apply rev_ind; [reflexivity|]; intros t' ts IH;
       rewrite frames_snoc; simpl; exact IH). }
  split; [destruct c; reflexivity|].
  split; [destruct c; reflexivity|].
  split; [destruct c; try reflexivity; (split; [reflexivity | exact Hk])|].
  rewrite frames_position_x, frames_position_z.
  destruct c; split; reflexivity.
Qed.


End Animators.

Section Particles.

Variable sin : Q -> Q.
Variable random : nat -> Q.
Hypothesis random_range : forall k, (0 <= random k)%Q /\ (random k < 1)%Q.

(** With [Math.random()] in [0, 1), a coordinate lies within half the
    width of the box on either side of zero. *)
Lemma coordinate_20 (k : nat) : between (-10) 10 (coordinate random 20 k).
Proof using random_range.
  destruct (random_range k) as [H0 H1]. simpl. split; lra.
Qed.

Lemma coordinate_10 (k : nat) : between (-5) 5 (coordinate random 10 k).
Proof using random_range.
  destruct (random_range k) as [H0 H1]. simpl. split; lra.
Qed.

(** The loop of [ParticleField] after [n] iterations on a buffer that has
    room for them: the particles below [n] are written from consecutive
    random numbers, the rest of the buffer is as before. *)
Lemma fill_spec (n : nat) (pos : list number) (k : nat) :
  (3 * n <= length pos)%nat ->
  exists pos',
    fold_left (fun st i => fill random i st) (seq 0 n) (pos, k) = (pos', (k + 3 * n)%nat) /\
    length pos' = length pos /\
    (forall i, (i < n)%nat ->
       pos' !! (i * 3)%nat = Some (coordinate random 20 (k + 3 * i)) /\
       pos' !! (i * 3 + 1)%nat = Some (coordinate random 20 (k + 3 * i + 1)) /\
       pos' !! (i * 3 + 2)%nat = Some (coordinate random 10 (k + 3 * i + 2))) /\
    (forall j, (3 * n <= j)%nat -> pos' !! j = pos !! j).
Proof.
  induction n as [|n IH]; intros Hlen.
  - exists pos. simpl. rewrite Nat.add_0_r. repeat split; [lia | lia | lia].
  - destruct IH as (p & Hfold & Hl & Hin & Hout); [lia|].
    rewrite seq_S, fold_left_app, Hfold. simpl.
    eexists. split; [f_equal; lia|].
    split; [rewrite !length_insert; exact Hl|].
    split.
    + intros i Hi. destruct (decide (i = n)) as [->|Hne].
      * rewrite !Nat.add_0_r.
        replace (k + 3 * n + 1)%nat with (k + (n + (n + n)) + 1)%nat by lia.
        replace (k + 3 * n + 2)%nat with (k + (n + (n + n)) + 2)%nat by lia.
        replace (k + 3 * n)%nat with (k + (n + (n + n)))%nat by lia.
        repeat split.
        -- rewrite !list_lookup_insert_ne by lia.
           apply list_lookup_insert_eq. lia.
        -- rewrite list_lookup_insert_ne by lia.
           apply list_lookup_insert_eq. rewrite length_insert. lia.
        -- apply list_lookup_insert_eq. rewrite !length_insert. lia.
      * rewrite !list_lookup_insert_ne by lia. apply Hin. lia.
    + intros j Hj. rewrite !list_lookup_insert_ne by lia. apply Hout. lia.
Qed.

Lemma Qtruncate_nonneg (a b : Z) :
  (0 <= a)%Z -> Qtruncate (inject_Z a * inject_Z b) = (a * b)%Z \/ (b < 0)%Z.
Proof.
  intros Ha. destruct (Z.ltb_spec b 0) as [Hb|Hb]; [right; exact Hb | left].
  unfold Qtruncate.
  replace (Qle_bool 0 (inject_Z a * inject_Z b)) with true.
  - unfold Qfloor, Qmult, inject_Z. simpl. apply Z.div_1_r.
  - symmetry. apply Qle_bool_iff. rewrite <- inject_Z_mult.
    change 0%Q with (inject_Z 0). rewrite <- Zle_Qle. nia.
Qed.

(** The buffer allocated for a natural [count]: [3 * count] zeros. *)
Lemma Float32Array_of_nat (n : nat) :
  (3 * Z.of_nat n <= 2 ^ 53 - 1)%Z ->
  Float32Array (of_nat n * Num 3)%js = Normal (replicate (3 * n) (Num 0)).
Proof.
  intros Hn. unfold Float32Array, ToIndex, of_nat, JS.mul.
  change 3%Q with (inject_Z 3).
  destruct (Qtruncate_nonneg (Z.of_nat n) 3) as [->|]; [lia | | lia].
  replace ((Z.of_nat n * 3 <? 0) || (2 ^ 53 - 1 <? Z.of_nat n * 3))%Z with false.
  - do 2 f_equal. lia.
  - symmetry. apply orb_false_iff. split; apply Z.ltb_ge; lia.
Qed.

Lemma trip_count_of_nat (n : nat) : trip_count (of_nat n) = n.
Proof. unfold trip_count, of_nat. rewrite Qceiling_Z. apply Nat2Z.id. Qed.

(** The loop test [i < count] holds exactly for the naturals below
    [trip_count count]. *)
Lemma trip_count_spec (count : number) (i : nat) :
  (i < trip_count count)%nat <-> (of_nat i < count)%js = true.
Proof.
  destruct count as [|q]; [simpl; split; [lia | discriminate]|].
  unfold of_nat. rewrite lt_true. unfold trip_count.
  pose proof (Qle_ceiling q) as Hle. pose proof (Qceiling_lt q) as Hlt.
  split; intros H.
  - assert (Hz : (Z.of_nat i + 1 <= Qceiling q)%Z) by lia.
    rewrite Zle_Qle, inject_Z_plus in Hz.
    unfold Z.sub in Hlt. rewrite inject_Z_plus in Hlt.
    rewrite inject_Z_opp in Hlt.
    change (inject_Z 1) with 1%Q in Hz, Hlt. lra.
  - assert (Hz : (Z.of_nat i < Qceiling q)%Z); [|lia].
    rewrite Zlt_Qlt. lra.
Qed.

(** The buffer built for a natural [count]: [count] particles, the [i]-th
    from the random numbers [3 i], [3 i + 1] and [3 i + 2] after the [k]
    already drawn. *)
Lemma positions_of_nat (n k : nat) :
  (3 * Z.of_nat n <= 2 ^ 53 - 1)%Z ->
  exists pos,
    positions random (of_nat n) k = Normal (pos, (k + 3 * n)%nat) /\
    length pos = (3 * n)%nat /\
    forall i, (i < n)%nat ->
      particle pos i =
        Some (mkVector3 (coordinate random 20 (k + 3 * i))
                        (coordinate random 20 (k + 3 * i + 1))
                        (coordinate random 10 (k + 3 * i + 2))).
Proof.
  intros Hn. unfold positions.
  rewrite Float32Array_of_nat by exact Hn. rewrite trip_count_of_nat.
  destruct (fill_spec n (replicate (3 * n) (Num 0)) k) as (pos & Hf & Hl & Hin & _).
  { rewrite length_replicate. lia. }
  exists pos. rewrite Hf. split; [reflexivity|].
  split; [rewrite Hl; apply length_replicate|].
  intros i Hi. unfold particle.
  destruct (Hin i Hi) as (-> & -> & ->). reflexivity.
Qed.

(** C4.  With [count = 200] the buffer holds exactly 200 particles (600
    numbers) and the field rendered without a [count] prop is this buffer.
    The particle [i] is made from three consecutive draws of
    [Math.random()]: [(r - 0.5) * 20] for x and for y, [(r - 0.5) * 10] for
    z, so it lies in the box [-10, 10] x [-10, 10] x [-5, 5]. *)
Theorem two_hundred_particles (isDark : bool) (k : nat) :
  exists pos,
    positions random (Num 200) k = Normal (pos, (k + 600)%nat) /\
    ParticleField_render random None isDark None k =
      Normal (mkPoints (Num 200, pos) (mount (ParticleField None isDark))
                (if isDark then "#c4b5fd" else "#7c3aed")%string,
              (k + 600)%nat) /\
    length pos = 600%nat /\
    (forall i, (200 <= i)%nat -> particle pos i = None) /\
    (forall i, (i < 200)%nat ->
       particle pos i =
         Some (mkVector3
                 ((Num (random (k + 3 * i)) - Num 0.5) * Num 20)%js
                 ((Num (random (k + 3 * i + 1)) - Num 0.5) * Num 20)%js
                 ((Num (random (k + 3 * i + 2)) - Num 0.5) * Num 10)%js) /\
       between (-10) 10 ((Num (random (k + 3 * i)) - Num 0.5) * Num 20)%js /\
       between (-10) 10 ((Num (random (k + 3 * i + 1)) - Num 0.5) * Num 20)%js /\
       between (-5) 5 ((Num (random (k + 3 * i + 2)) - Num 0.5) * Num 10)%js).
Proof using random_range.
  destruct (positions_of_nat 200 k) as (pos & Hp & Hl & Hin); [lia|].
  change (of_nat 200) with (Num 200) in Hp.
  change (k + 3 * 200)%nat with (k + 600)%nat in Hp.
  change (3 * 200)%nat with 600%nat in Hl.
  exists pos. split; [exact Hp|].
  split; [unfold ParticleField_render, useMemo; simpl dflt; simpl option_map;
          rewrite Hp; reflexivity|].
  split; [exact Hl|]. split.
  - intros i Hi. unfold particle.
    rewrite (lookup_ge_None_2 pos (i * 3)) by lia. reflexivity.
  - intros i Hi. split; [exact (Hin i Hi)|].
    split; [apply coordinate_20 | split; [apply coordinate_20 | apply coordinate_10]].
Qed.

Lemma run_snoc (count : option number) (isDark : bool) (k : nat)
    (es : list Event) (e : Event) :
  run sin random count isDark k (es ++ [e]) =
  step sin random count (run sin random count isDark k es) e.
Proof. unfold run. rewrite fold_left_app. reflexivity. Qed.

Lemma Object_is_refl (a : number) : Object_is a a = true.
Proof. destruct a; simpl; [reflexivity | apply Qeq_bool_iff; reflexivity]. Qed.

(** C6.  Once the particle field is mounted, no event changes the buffer:
    a frame writes [rotation.x] and [rotation.y] of the [<points>] object
    and nothing else, and a render caused by a theme change finds the
    buffer in the cell of [useMemo] and draws no random number. *)
Theorem positions_are_never_rewritten (count : option number) (isDark : bool)
    (k k0 : nat) (p0 : Points) (es : list Event) :
  ParticleField_render random count isDark None k = Normal (p0, k0) ->
  exists p,
    run sin random count isDark k es = Normal (p, k0) /\
    memo p = memo p0 /\
    position (points p) = position (points p0) /\
    get rotation_z (points p) = get rotation_z (points p0) /\
    forall t, exists p',
      step sin random count (Normal (p, k0)) (Tick t) = Normal (p', k0) /\
      memo p' = memo p /\
      forall s, s <> rotation_x -> s <> rotation_y ->
                get s (points p') = get s (points p).
Proof.
  intros Hm.
  assert (Hdep : fst (memo p0) = dflt (Num 200) count).
  { unfold ParticleField_render, useMemo in Hm. simpl option_map in Hm.
    destruct (positions random (dflt (Num 200) count) k) as [[pos k']|]; [|discriminate].
    injection Hm as <- _. reflexivity. }
  assert (Hrun : exists p, run sin random count isDark k es = Normal (p, k0) /\
            memo p = memo p0 /\ position (points p) = position (points p0) /\
            get rotation_z (points p) = get rotation_z (points p0)).
  { induction es as [|e es IH] using rev_ind.
    - exists p0. unfold run. simpl. auto.
    - destruct IH as (p & Hr & Hmemo & Hpos & Hz).
      rewrite run_snoc, Hr. destruct e as [t|d]; simpl.
      + eexists. split; [reflexivity|]. simpl. auto.
      + unfold ParticleField_render, useMemo. simpl option_map.
        destruct (memo p) as [dep pos] eqn:Ememo.
        assert (dep = dflt (Num 200) count) as ->.
        { rewrite <- Hdep, <- Hmemo. reflexivity. }
        rewrite Object_is_refl. eexists. split; [reflexivity|]. simpl.
        rewrite <- Hmemo. auto. }
  destruct Hrun as (p & Hr & Hmemo & Hpos & Hz).
  exists p. repeat (split; [assumption|]).
  intros t. eexists. split; [reflexivity|]. split; [reflexivity|].
  intros s Hx Hy. destruct s; simpl; congruence.
Qed.




Lemma useFrame_geometry (c : Component) :
  useFrame sin (Component_geometry c) = useFrame sin c.
Proof. destruct c; reflexivity. Qed.

Lemma mount_geometry (c : Component) : mount (Component_geometry c) = mount c.
Proof. destruct c; reflexivity. Qed.

Lemma components_geometry (s : Canvas) :
  components (geometry s) = map Component_geometry (components s).
Proof.
  unfold components, geometry. simpl. induction (children s) as [|n l IH]; [reflexivity|].
  destruct n; simpl; rewrite <- IH; reflexivity.
Qed.

(** The transforms of the animated components of a scene after a run are
    determined by the scene without its colours. *)
Lemma transforms_geometry (s : Canvas) (ts : list number) :
  map (fun c => frames sin c ts (mount c)) (components s) =
  map (fun c => frames sin c ts (mount c)) (components (geometry s)).
Proof.
  rewrite components_geometry, map_map. apply map_ext. intros c.
  unfold frames. rewrite useFrame_geometry, mount_geometry. reflexivity.
Qed.

(** C7.  For every skin the dark and the light scene are the same once the
    colour attributes are blanked: same camera, same lights at the same
    places with the same intensities, same components with the same
    positions, sizes, speeds and distortions; their animated components
    have the same transforms after any run; and the two renders of a
    particle field differ in the colour of the material only. *)
Theorem theme_selects_colours_only (d : Skin) (ts : list number)
    (count : option number) (prev : option Points) (k : nat) :
  geometry (scene d true) = geometry (scene d false) /\
  map (fun c => frames sin c ts (mount c)) (components (scene d true)) =
  map (fun c => frames sin c ts (mount c)) (components (scene d false)) /\
  match ParticleField_render random count true prev k,
        ParticleField_render random count false prev k with
  | Normal (p1, k1), Normal (p2, k2) =>
      memo p1 = memo p2 /\ points p1 = points p2 /\ k1 = k2
  | Throw e1, Throw e2 => e1 = e2
  | _, _ => False
  end.
Proof.
  assert (Hg : geometry (scene d true) = geometry (scene d false))
    by (destruct d; reflexivity).
  split; [exact Hg|]. split.
  - rewrite (transforms_geometry (scene d true)), Hg.
    symmetry. apply transforms_geometry.
  - unfold ParticleField_render.
    destruct (useMemo random (dflt (Num 200) count) (option_map memo prev) k)
      as [[[dep pos] k']|e]; [|reflexivity].
    simpl. destruct prev; auto.
Qed.

End Particles.

(** * Instances at the sample host *)

Lemma Sample_random_range (k : nat) :
  (0 <= Sample.random k)%Q /\ (Sample.random k < 1)%Q.
Proof.
  unfold Sample.random.
  pose proof (Nat.mod_upper_bound (k * 7) 10 ltac:(lia)) as Hm.
  unfold Qle, Qlt, Qdiv, Qmult, Qinv, inject_Z. simpl. lia.
Qed.

(** C1, the claim as stated fails: an orb with [speed = 1] run for one
    second at 60 and at 30 ticks per second ends with [rotation.y] at 0.18
    and at 0.09. *)
Lemma frame_rate_counterexample :
  let c := CosmicOrb origin "#a78bfa" (Some (Num 1)) None None in
  same (get rotation_y (frames Sample.sin c (ticks 60 1) (mount c))) (Num 0.18) /\
  same (get rotation_y (frames Sample.sin c (ticks 30 1) (mount c))) (Num 0.09) /\
  ~ frame_rate_independent Sample.sin (1 # 1000) c 1.
Proof.
  split; [vm_compute; reflexivity|]. split; [vm_compute; reflexivity|].
  intros H. specialize (H rotation_y). vm_compute in H. apply H. reflexivity.
Qed.

Lemma slots_after_equal_durations_witness :
  let c := CosmicOrb origin "#a78bfa" (Some (Num 1)) None None in
  same (get rotation_y (frames Sample.sin c (ticks 60 1) (mount c)))
       (Num (0 + inject_Z (Z.of_nat (60 * 1)) * (0.003 * 1))) /\
  same (get rotation_y (frames Sample.sin c (ticks 30 1) (mount c)))
       (Num (0 + inject_Z (Z.of_nat (30 * 1)) * (0.003 * 1))).
Proof.
  intros c.
  apply (slots_after_equal_durations Sample.sin c rotation_y 60 30 1 (mount c));
    [lia | lia | lia | reflexivity | reflexivity].
Defined.

(** C3, the claim as stated fails: on the mounted orb a frame with elapsed
    time [NaN] writes [NaN] into [rotation.x], and a frame with elapsed time
    [-1] moves [rotation.y] from 0 to 0.003. *)
Lemma invalid_time_counterexample :
  let c := CosmicOrb origin "#a78bfa" (Some (Num 1)) None None in
  get rotation_x (useFrame Sample.sin c NaN (mount c)) = NaN /\
  get rotation_y (mount c) = Num 0 /\
  same (get rotation_y (useFrame Sample.sin c (Num (-1)) (mount c))) (Num 0.003) /\
  ~ holds_on_invalid_time Sample.sin c.
Proof.
  intros c.
  split; [reflexivity|]. split; [reflexivity|]. split; [vm_compute; reflexivity|].
  intros H. specialize (H NaN (mount c) (or_introl eq_refl)).
  apply (f_equal (get rotation_x)) in H. discriminate H.
Qed.

Lemma frame_on_invalid_time_witness :
  let c := CosmicOrb origin "#a78bfa" (Some (Num 1)) None None in
  (get rotation_x (useFrame Sample.sin c NaN (mount c)) =
     (Math_sin Sample.sin (NaN * Num 1 * Num 0.3) * Num 0.2)%js /\
   (isNaN NaN = true ->
    forall f, writes Sample.sin c rotation_x = Assign f ->
              get rotation_x (useFrame Sample.sin c NaN (mount c)) = NaN)) /\
  (get rotation_y (useFrame Sample.sin c (Num (-1)) (mount c)) =
     (get rotation_y (mount c) + Num 0.003 * Num 1)%js /\
   (isNaN (Num (-1)) = true ->
    forall f, writes Sample.sin c rotation_y = Assign f ->
              get rotation_y (useFrame Sample.sin c (Num (-1)) (mount c)) = NaN)).
Proof.
  intros c. split.
  - apply (frame_on_invalid_time Sample.sin c rotation_x NaN (mount c)).
    left. reflexivity.
  - apply (frame_on_invalid_time Sample.sin c rotation_y (Num (-1)) (mount c)).
    right. reflexivity.
Defined.

(** C5, the claim as stated fails: after the frames at elapsed times 1 and
    2 the [rotation.y] of the particle field is 0.04, not the 0.02 of the
    first frame plus 0.04. *)
Lemma ParticleField_rotation_counterexample :
  let c := ParticleField None true in
  let o1 := useFrame Sample.sin c (Num 1) (mount c) in
  let o2 := useFrame Sample.sin c (Num 2) o1 in
  same (get rotation_y o1) (Num 0.02) /\
  same (get rotation_y o2) (Num 0.04) /\
  ~ same (get rotation_y o2) (get rotation_y o1 + Num 2 * Num 0.02)%js.
Proof.
  split; [vm_compute; reflexivity|]. split; [vm_compute; reflexivity|].
  vm_compute. discriminate.
Qed.

Lemma two_hundred_particles_witness :
  exists pos,
    positions Sample.random (Num 200) 0 = Normal (pos, 600%nat) /\
    ParticleField_render Sample.random None true None 0 =
      Normal (mkPoints (Num 200, pos) (mount (ParticleField None true)) "#c4b5fd",
              600%nat) /\
    length pos = 600%nat /\
    (forall i, (200 <= i)%nat -> particle pos i = None) /\
    (forall i, (i < 200)%nat ->
       particle pos i =
         Some (mkVector3
                 ((Num (Sample.random (0 + 3 * i)) - Num 0.5) * Num 20)%js
                 ((Num (Sample.random (0 + 3 * i + 1)) - Num 0.5) * Num 20)%js
                 ((Num (Sample.random (0 + 3 * i + 2)) - Num 0.5) * Num 10)%js) /\
       between (-10) 10 ((Num (Sample.random (0 + 3 * i)) - Num 0.5) * Num 20)%js /\
       between (-10) 10 ((Num (Sample.random (0 + 3 * i + 1)) - Num 0.5) * Num 20)%js /\
       between (-5) 5 ((Num (Sample.random (0 + 3 * i + 2)) - Num 0.5) * Num 10)%js).
Proof.
  exact (two_hundred_particles Sample.random Sample_random_range true 0).
Defined.

Lemma positions_are_never_rewritten_witness :
  let p0 := mkPoints (Num 1, [coordinate Sample.random 20 0;
                              coordinate Sample.random 20 1;
                              coordinate Sample.random 10 2])
              (mount (ParticleField (Some (Num 1)) true)) "#c4b5fd" in
  let es := [Tick (Num 1); Rerender false; Tick (Num 2)] in
  exists p,
    run Sample.sin Sample.random (Some (Num 1)) true 0 es = Normal (p, 3%nat) /\
    memo p = memo p0 /\
    position (points p) = position (points p0) /\
    get rotation_z (points p) = get rotation_z (points p0) /\
    forall t, exists p',
      step Sample.sin Sample.random (Some (Num 1)) (Normal (p, 3%nat)) (Tick t) =
        Normal (p', 3%nat) /\
      memo p' = memo p /\
      forall s, s <> rotation_x -> s <> rotation_y ->
                get s (points p') = get s (points p).
Proof.
  intros p0 es.
  apply (positions_are_never_rewritten Sample.sin Sample.random
           (Some (Num 1)) true 0 3 p0 es).
  reflexivity.
Defined.




(** * Further properties of the animated components *)

Section MoreAnimators.

Variable sin : Q -> Q.
Hypothesis sin_range : forall q, (-1 <= sin q)%Q /\ (sin q <= 1)%Q.

(** A transform is its six slots. *)
Lemma Object3D_ext (o o' : Object3D) :
  (forall s, get s o = get s o') -> o = o'.
Proof.
  intros H. destruct o as [[a b c] [d e f]], o' as [[a' b' c'] [d' e' f']].
  pose proof (H position_x). pose proof (H position_y).
  pose proof (H position_z). pose proof (H rotation_x).
  pose proof (H rotation_y). pose proof (H rotation_z).
  simpl in *. congruence.
Qed.

(** An accumulated slot after a run: the increment added once per tick. *)
Lemma frames_accumulate_iter (c : Component) (s : Slot) (inc : number)
    (ts : list number) (o : Object3D) :
  writes sin c s = Accumulate inc ->
  get s (frames sin c ts o) =
  Nat.iter (length ts) (fun v => (v + inc)%js) (get s o).
Proof.
  intros Hw. induction ts as [|t ts IH] using rev_ind; [reflexivity|].
  rewrite frames_snoc, useFrame_writes, Hw, IH, length_app, Nat.add_comm.
  reflexivity.
Qed.

(** X1.  The transform after a run is determined by the number of ticks and the
    elapsed time of the last one: the elapsed times of the earlier ticks,
    whether finite, negative or [NaN], leave no trace. *)
Theorem transform_after_run (c : Component) (ts1 ts2 : list number)
    (t : number) (o : Object3D) :
  length ts1 = length ts2 ->
  frames sin c (ts1 ++ [t]) o = frames sin c (ts2 ++ [t]) o.
Proof.
  intros Hlen. apply Object3D_ext. intros s.
  destruct (writes sin c s) as [|inc|f] eqn:Hw.
  - rewrite !(frames_keep sin c s) by exact Hw. reflexivity.
  - rewrite !(frames_accumulate_iter c s inc) by exact Hw.
    rewrite !length_app, Hlen. reflexivity.
  - rewrite !(frames_assign sin c s f) by exact Hw. reflexivity.
Qed.

(** X2.  A component whose callback accumulates nothing has no memory at all:
    after any run its transform is that of the last frame alone, applied to
    the object as it was first. *)
Theorem stateless_components (c : Component) (ts : list number)
    (t : number) (o : Object3D) :
  (forall s inc, writes sin c s <> Accumulate inc) ->
  frames sin c (ts ++ [t]) o = useFrame sin c t o.
Proof.
  intros Hn. apply Object3D_ext. intros s.
  rewrite frames_snoc, !useFrame_writes.
  destruct (writes sin c s) as [|inc|f] eqn:Hw.
  - apply (frames_keep sin c s). exact Hw.
  - destruct (Hn s inc Hw).
  - reflexivity.
Qed.

(** X3.  Where a callback accumulates, the slot after [n] ticks is its first
    value plus [n] increments, whatever the elapsed times of the ticks. *)
Theorem accumulated_angle (c : Component) (s : Slot) (inc v : Q)
    (ts : list number) (o : Object3D) :
  writes sin c s = Accumulate (Num inc) -> get s o = Num v ->
  same (get s (frames sin c ts o))
       (Num (v + inject_Z (Z.of_nat (length ts)) * inc)).
Proof.
  intros Hw Hv.
  destruct (frames_accumulate sin c s inc v ts o Hw Hv) as (v' & -> & Hv').
  exact Hv'.
Qed.

(** X4.  A slot driven by a sine stays within its amplitude around its centre
    after every frame whose elapsed time is of moderate size, the props
    being of moderate size too (so that no product overflows): the bobbing
    spheres never leave the band [position[1] - a, position[1] + a], the
    swaying angles the band [-a, a]. *)
Theorem sway_within_amplitude (c : Component) (s : Slot) (b a q : Q)
    (ts : list number) (o : Object3D) :
  amplitude c s = Some (Num b, a) -> moderate_props c -> moderate (Num q) ->
  between (b - a) (b + a) (get s (frames sin c (ts ++ [Num q]) o)).
Proof using sin_range.
  intros Ha Hp _. rewrite frames_snoc, useFrame_writes.
  destruct c, s; try discriminate Ha; simpl in Ha, Hp |- *;
    try (apply moderate_Num in Hp as [w Hw]; rewrite Hw in *);
    injection Ha as <- <-; simpl;
    match goal with |- context [sin ?e] => destruct (sin_range e) end;
    split; lra.
Qed.

End MoreAnimators.

(** * Further properties of the particle buffer *)

Section MoreParticles.

Variable random : nat -> Q.
Hypothesis random_range : forall k, (0 <= random k)%Q /\ (random k < 1)%Q.

Lemma width_x (n : nat) : width (n * 3) = 20%Q.
Proof. unfold width. rewrite Nat.Div0.mod_mul. reflexivity. Qed.

Lemma width_y (n : nat) : width (n * 3 + 1) = 20%Q.
Proof.
  unfold width. rewrite (Nat.add_comm (n * 3) 1), Nat.Div0.mod_add. reflexivity.
Qed.

Lemma width_z (n : nat) : width (n * 3 + 2) = 10%Q.
Proof.
  unfold width. rewrite (Nat.add_comm (n * 3) 2), Nat.Div0.mod_add. reflexivity.
Qed.

(** The loop after [n] iterations on any buffer, also one too short for
    them: the cell [j] below [3 n] that exists holds the coordinate made
    from the draw [k + j]; the stores past the end are lost, their draws are
    spent all the same. *)
Lemma fill_cells (n : nat) (pos : list number) (k : nat) :
  exists pos',
    fold_left (fun st i => fill random i st) (seq 0 n) (pos, k) =
      (pos', (k + 3 * n)%nat) /\
    length pos' = length pos /\
    forall j, pos' !! j =
              if decide (j < 3 * n /\ j < length pos)%nat
              then Some (coordinate random (width j) (k + j))
              else pos !! j.
Proof.
  induction n as [|n IH].
  - exists pos. simpl. rewrite Nat.add_0_r.
    split; [reflexivity|]. split; [reflexivity|].
    intros j. reflexivity.
  - destruct IH as (p & Hfold & Hl & Hcell).
    rewrite seq_S, fold_left_app, Hfold. simpl.
    eexists. split; [f_equal; lia|].
    split; [rewrite !length_insert; exact Hl|].
    intros j. rewrite !list_lookup_insert, !length_insert, Hl, Hcell.
    pose proof (width_x n). pose proof (width_y n). pose proof (width_z n).
    repeat case_decide; destruct_and?; subst;
      try (exfalso; lia); try reflexivity;
      repeat match goal with H : width _ = _ |- _ => rewrite H; clear H end;
      try (f_equal; f_equal; lia);
      try (exfalso; lia).
Qed.

(** The buffer is never longer than what the loop writes. *)
Lemma ToIndex_trip_count (count : number) (len : nat) :
  ToIndex (count * Num 3)%js = Normal len -> (len <= 3 * trip_count count)%nat.
Proof.
  destruct count as [|q]; simpl.
  - intros [= <-]. lia.
  - destruct ((Qtruncate (q * 3) <? 0) || (2 ^ 53 - 1 <? Qtruncate (q * 3)))%Z eqn:E;
      [discriminate|].
    intros [= <-]. apply orb_false_iff in E as [E _]. apply Z.ltb_ge in E.
    unfold Qtruncate in *. destruct (Qle_bool 0 (q * 3)) eqn:Hs.
    + apply Qle_bool_iff in Hs.
      pose proof (Qfloor_le (q * 3)) as Hf. pose proof (Qle_ceiling q) as Hc.
      assert (Hz : (Qfloor (q * 3) <= 3 * Qceiling q)%Z).
      { rewrite Zle_Qle, inject_Z_mult. change (inject_Z 3) with 3%Q. lra. }
      lia.
    + assert (Hneg : ~ (0 <= q * 3)%Q) by (rewrite <- Qle_bool_iff, Hs; discriminate).
      pose proof (Qceiling_lt (q * 3)) as Hlt.
      unfold Z.sub in Hlt. rewrite inject_Z_plus, inject_Z_opp in Hlt.
      change (inject_Z 1) with 1%Q in Hlt.
      assert (Hz : (Qceiling (q * 3) < 1)%Z).
      { rewrite Zlt_Qlt. change (inject_Z 1) with 1%Q. lra. }
      lia.
Qed.

(** Every cell of a buffer that was built holds a coordinate. *)
Lemma positions_cells (count : number) (k k' : nat) (pos : list number) :
  positions random count k = Normal (pos, k') ->
  k' = (k + 3 * trip_count count)%nat /\
  (length pos <= 3 * trip_count count)%nat /\
  forall j, (j < length pos)%nat ->
            pos !! j = Some (coordinate random (width j) (k + j)).
Proof.
  unfold positions, Float32Array.
  destruct (ToIndex (count * Num 3)%js) as [len|e] eqn:Hlen; [|discriminate].
  apply ToIndex_trip_count in Hlen.
  destruct (fill_cells (trip_count count) (replicate len (Num 0)) k)
    as (p & -> & Hl & Hcell).
  intros [= <- <-]. rewrite length_replicate in Hl. rewrite Hl.
  split; [reflexivity|]. split; [exact Hlen|].
  intros j Hj. rewrite Hcell, length_replicate.
  case_decide; [reflexivity | lia].
Qed.

(** X7.  Whatever the [count], every number of a buffer that is built lies in
    [-10, 10], and the depths (the cells [3 i + 2]) in [-5, 5]. *)
Theorem buffer_within_box (count : number) (k k' : nat) (pos : list number)
    (j : nat) (v : number) :
  positions random count k = Normal (pos, k') ->
  pos !! j = Some v ->
  between (-10) 10 v /\ ((j mod 3 = 2)%nat -> between (-5) 5 v).
Proof using random_range.
  intros H Hj. destruct (positions_cells count k k' pos H) as (_ & _ & Hc).
  rewrite Hc in Hj by (apply lookup_lt_Some in Hj; exact Hj).
  injection Hj as <-. destruct (random_range (k + j)) as [H0 H1].
  unfold width. destruct (j mod 3 =? 2)%nat eqn:E; simpl.
  - split; [split; lra | intros _; split; lra].
  - split; [split; lra|]. intros Hm. apply Nat.eqb_neq in E. contradiction.
Qed.

(** X8.  A [count] that is [NaN] or zero gives the empty buffer without a draw,
    and the field mounts on it. *)
Theorem empty_field (count : number) (isDark : bool) (k : nat) :
  count = NaN \/ (exists q, count = Num q /\ (q == 0)%Q) ->
  positions random count k = Normal ([], k) /\
  ParticleField_render random (Some count) isDark None k =
    Normal (mkPoints (count, []) (mount (ParticleField (Some count) isDark))
              (if isDark then "#c4b5fd" else "#7c3aed")%string, k).
Proof.
  intros Hc.
  assert (Hp : positions random count k = Normal ([], k)).
  { destruct Hc as [->|(q & -> & Hq)]; [reflexivity|].
    unfold positions, Float32Array, ToIndex. simpl JS.mul. cbv beta iota zeta.
    assert (Ht : Qtruncate (q * 3) = 0%Z).
    { unfold Qtruncate.
      replace (Qle_bool 0 (q * 3)) with true
        by (symmetry; apply Qle_bool_iff; lra).
      assert (E : (q * 3 == inject_Z 0)%Q) by (rewrite Hq; reflexivity).
      rewrite E. apply Qfloor_Z. }
    rewrite Ht. simpl.
    assert (Hn : Qceiling q = 0%Z).
    { assert (E : (q == inject_Z 0)%Q) by (rewrite Hq; reflexivity).
      rewrite E. apply Qceiling_Z. }
    rewrite Hn. reflexivity. }
  split; [exact Hp|].
  unfold ParticleField_render, useMemo. simpl dflt. simpl option_map.
  rewrite Hp. reflexivity.
Qed.

(** X9.  A [count] with [count * 3] at or above [2^53] fails in the allocation
    of the buffer: a [RangeError], no buffer, no mount. *)
Theorem oversized_count_throws (q : Q) (isDark : bool) (k : nat) :
  (inject_Z (2 ^ 53) <= q * 3)%Q ->
  positions random (Num q) k = Throw RangeError /\
  ParticleField_render random (Some (Num q)) isDark None k = Throw RangeError.
Proof.
  intros Hq.
  assert (Hp : positions random (Num q) k = Throw RangeError).
  { unfold positions, Float32Array, ToIndex. simpl JS.mul. cbv beta iota zeta.
    assert (Ht : (2 ^ 53 <= Qtruncate (q * 3))%Z).
    { unfold Qtruncate.
      replace (Qle_bool 0 (q * 3)) with true.
      - rewrite <- (Qfloor_Z (2 ^ 53)). apply Qfloor_resp_le. exact Hq.
      - symmetry. apply Qle_bool_iff.
        apply Qle_trans with (inject_Z (2 ^ 53)); [discriminate | exact Hq]. }
    replace ((Qtruncate (q * 3) <? 0) || (2 ^ 53 - 1 <? Qtruncate (q * 3)))%Z with true;
      [reflexivity|].
    symmetry. apply orb_true_iff. right. apply Z.ltb_lt. lia. }
  split; [exact Hp|].
  unfold ParticleField_render, useMemo. simpl dflt. simpl option_map.
  rewrite Hp. reflexivity.
Qed.

End MoreParticles.

(** X10.  Two generators that agree on the draws a buffer spends build the same
    buffer: the buffer is reproducible from the draws [k] to
    [k + 3 * trip_count count - 1] alone. *)
Theorem buffer_reproducible (random1 random2 : nat -> Q) (count : number) (k : nat) :
  (forall j, (j < 3 * trip_count count)%nat -> random1 (k + j)%nat = random2 (k + j)%nat) ->
  positions random1 count k = positions random2 count k.
Proof.
  intros Hagree.
  destruct (positions random1 count k) as [[p1 k1]|e1] eqn:H1;
    destruct (positions random2 count k) as [[p2 k2]|e2] eqn:H2.
  - destruct (positions_cells random1 count k k1 p1 H1) as (-> & Hl1 & Hc1).
    destruct (positions_cells random2 count k k2 p2 H2) as (-> & Hl2 & Hc2).
    assert (Hlen : length p1 = length p2).
    { unfold positions in H1, H2.
      destruct (Float32Array (count * Num 3)%js) as [p0|]; [|discriminate].
      destruct (fill_cells random1 (trip_count count) p0 k) as (q1 & E1 & L1 & _).
      destruct (fill_cells random2 (trip_count count) p0 k) as (q2 & E2 & L2 & _).
      rewrite E1 in H1. rewrite E2 in H2.
      injection H1 as <-. injection H2 as <-. congruence. }
    do 2 f_equal. apply list_eq. intros j.
    destruct (decide (j < length p1)%nat) as [Hj|Hj].
    + rewrite Hc1, Hc2 by lia. unfold coordinate. rewrite Hagree by lia. reflexivity.
    + rewrite !lookup_ge_None_2 by lia. reflexivity.
  - unfold positions in H1, H2.
    destruct (Float32Array (count * Num 3)%js); discriminate.
  - unfold positions in H1, H2.
    destruct (Float32Array (count * Num 3)%js); discriminate.
  - unfold positions in H1, H2.
    destruct (Float32Array (count * Num 3)%js); congruence.
Qed.

(** * Properties of the navigation bar, its links and the routes *)

Lemma scroll_listeners (h : nat) (y : number) (p : Page) :
  listeners (window (scroll h y p)) = listeners (window p).
Proof. reflexivity. Qed.

Lemma scrolls_snoc (h : nat) (ys : list number) (y : number) (p : Page) :
  scrolls h (ys ++ [y]) p = scroll h y (scrolls h ys p).
Proof. unfold scrolls. rewrite fold_left_app. reflexivity. Qed.

Lemma scrolls_listeners (h : nat) (ys : list number) (p : Page) :
  listeners (window (scrolls h ys p)) = listeners (window p).
Proof.
  induction ys as [|y ys IH] using rev_ind; [reflexivity|].
  rewrite scrolls_snoc, scroll_listeners. exact IH.
Qed.

(** A mounted bar stays mounted under scrolling, an absent one absent. *)
Lemma scrolls_mounted (h : nat) (ys : list number) (p : Page) :
  is_Some (scrolled (scrolls h ys p)) <-> is_Some (scrolled p).
Proof.
  induction ys as [|y ys IH] using rev_ind; [reflexivity|].
  rewrite scrolls_snoc, <- IH. unfold scroll. simpl.
  destruct (decide _); [|reflexivity].
  destruct (scrolled (scrolls h ys p)) as [b0|]; split; intros [b Hb];
    try discriminate; eauto.
Qed.

Lemma Nav_mount_listens (h : nat) (p : Page) :
  h ∈ listeners (window (Nav_mount h p)).
Proof.
  unfold Nav_mount, addEventListener. simpl.
  destruct (decide _) as [Hin|_]; [exact Hin|].
  apply elem_of_app. right. apply list_elem_of_singleton. reflexivity.
Qed.

(** X12.  The bar follows the last scroll event.  Freshly mounted it is not
    [scrolled], wherever the page stands; after a scroll event it is
    [scrolled] exactly when the offset of that event is above 50 (at 50, or
    at [NaN], it is not), and the bar of Design1 is transparent exactly
    when it is not [scrolled]. *)
Theorem Nav_follows_last_scroll (h : nat) (isDark : bool) (p0 : Page)
    (ys : list number) (y : number) :
  scrolled (Nav_mount h p0) = Some false /\
  scrolled (scrolls h (ys ++ [y]) (Nav_mount h p0)) = Some (Num 50 < y)%js /\
  (forall b, scrolled (scrolls h (ys ++ [y]) (Nav_mount h p0)) = Some b ->
     (background (Nav_style isDark b) = "transparent"%string <-> (Num 50 < y)%js = false)).
Proof.
  assert (Hs : scrolled (scrolls h (ys ++ [y]) (Nav_mount h p0)) = Some (Num 50 < y)%js).
  { rewrite scrolls_snoc. unfold scroll. simpl.
    rewrite scrolls_listeners.
    destruct (decide _) as [_|Hn]; [|destruct (Hn (Nav_mount_listens h p0))].
    destruct (proj2 (scrolls_mounted h ys (Nav_mount h p0))) as [b ->]; [eexists; reflexivity|].
    reflexivity. }
  split; [reflexivity|]. split; [exact Hs|].
  intros b Hb. assert (b = JS.lt (Num 50) y) as -> by congruence.
  destruct (JS.lt (Num 50) y), isDark; simpl; split; intros H;
    try reflexivity; discriminate H.
Qed.

Lemma filter_fresh (h : nat) (l : list nat) :
  h ∉ l -> filter (fun h' => h' <> h) (l ++ [h]) = l.
Proof.
  intros Hn. induction l as [|a l IH]; simpl.
  - rewrite filter_cons. destruct (decide _) as [Hne|_]; [destruct (Hne eq_refl) | reflexivity].
  - apply not_elem_of_cons in Hn as [Hne Hn].
    rewrite filter_cons. destruct (decide _) as [_|Heq]; [|destruct (Heq (not_eq_sym Hne))].
    f_equal. apply IH. exact Hn.
Qed.

(** X13.  Mounting and unmounting the bar leaves the window as it found it: the
    listener added by the effect is removed by its cleanup, whatever
    scrolling went on in between, and after the unmount a scroll event
    reaches no state of the bar. *)
Theorem Nav_unmount_restores_window (h : nat) (p0 : Page) (ys zs : list number) :
  h ∉ listeners (window p0) ->
  let p := Nav_unmount h (scrolls h ys (Nav_mount h p0)) in
  listeners (window p) = listeners (window p0) /\
  scrolled (scrolls h zs p) = None /\
  listeners (window (scrolls h zs p)) = listeners (window p0).
Proof.
  intros Hn p.
  assert (Hl : listeners (window p) = listeners (window p0)).
  { unfold p, Nav_unmount, removeEventListener. simpl.
    rewrite scrolls_listeners. unfold Nav_mount, addEventListener. simpl.
    destruct (decide _) as [Hin|_]; [destruct (Hn Hin)|].
    apply filter_fresh. exact Hn. }
  split; [exact Hl|]. split.
  - destruct (scrolled (scrolls h zs p)) as [b|] eqn:E; [|reflexivity].
    assert (Hs : is_Some (scrolled p)) by (apply (scrolls_mounted h zs); eauto).
    destruct Hs as [b' Hb']. discriminate Hb'.
  - rewrite scrolls_listeners. exact Hl.
Qed.

Lemma anchor_character (c : ascii) :
  let g := if is_space (lower c) then "-"%char else lower c in
  is_space g = false /\ is_upper g = false /\
  (if is_space (lower g) then "-"%char else lower g) = g.
Proof.
  destruct c as [[] [] [] [] [] [] [] []]; vm_compute; repeat split; reflexivity.
Qed.

(** X14.  The anchor of a link is [#] followed by as many characters as the item
    has, none of them a white space or a capital letter, and making an
    anchor out of an anchor's text changes nothing. *)
Theorem href_is_an_anchor (item : string) :
  ascii_only item ->
  let slug := replace_spaces (toLowerCase item) in
  href item = String "#" slug /\
  String.length slug = String.length item /\
  none_of is_space slug /\ none_of is_upper slug /\
  replace_spaces (toLowerCase slug) = slug.
Proof.
  intros _ slug. split; [reflexivity|]. unfold slug. clear slug.
  induction item as [|c item (Hlen & Hsp & Hup & Hid)]; simpl.
  - repeat split.
  - destruct (anchor_character c) as (H1 & H2 & H3).
    split; [f_equal; exact Hlen|].
    split; [split; [exact H1 | exact Hsp]|].
    split; [split; [exact H2 | exact Hup]|].
    rewrite H3, Hid. reflexivity.
Qed.

(** X15.  Every pathname lands on one of the five designs, after one redirection
    at most: a pathname that matches none of [/1] ... [/5] is replaced by
    [/1], which renders Design1, so the redirection cannot loop. *)
Theorem every_path_lands_on_a_design (matchPath : string -> string -> bool)
    (pathname : string) :
  matchPath "/1"%string "/1"%string = true ->
  (exists d, landing matchPath pathname = Lazy d) /\
  ((forall pat, In pat ["/1"; "/2"; "/3"; "/4"; "/5"]%string ->
                matchPath pat pathname = false) ->
   App matchPath pathname = Navigate "/1" true /\
   landing matchPath pathname = Lazy Design1).
Proof.
  intros H1. split.
  - unfold landing, App.
    repeat (destruct (matchPath _ pathname); [eexists; reflexivity|]).
    rewrite H1. eexists. reflexivity.
  - intros Hnone. unfold landing, App.
    rewrite !Hnone by (simpl; auto 10). rewrite H1. split; reflexivity.
Qed.

(** * Properties of the marquee *)

Lemma string_length_app (a b : string) :
  String.length (a ++ b) = (String.length a + String.length b)%nat.
Proof. induction a as [|c a IH]; simpl; [reflexivity | rewrite IH; reflexivity]. Qed.

Lemma substring_head (a b : string) :
  substring 0 (String.length a) (a ++ b) = a.
Proof.
  induction a as [|c a IH]; simpl.
  - destruct b; reflexivity.
  - rewrite IH. reflexivity.
Qed.

Lemma substring_skip (a b : string) (n m : nat) :
  substring (String.length a + n) m (a ++ b) = substring n m b.
Proof. induction a as [|c a IH]; simpl; [reflexivity | exact IH]. Qed.

Lemma concat_replicate_S (sep t : string) (n : nat) :
  String.concat sep (replicate (S (S n)) t) =
  (t ++ sep ++ String.concat sep (replicate (S n) t))%string.
Proof. reflexivity. Qed.

Lemma concat_replicate_length (sep t : string) (n : nat) :
  String.length (String.concat sep (replicate (S n) t)) =
  (S n * String.length t + n * String.length sep)%nat.
Proof.
  induction n as [|n IH]; [simpl; lia|].
  rewrite concat_replicate_S, !string_length_app, IH. lia.
Qed.

Lemma concat_replicate_copy (sep t : string) (n i : nat) :
  (i <= n)%nat ->
  substring (i * (String.length t + String.length sep)) (String.length t)
    (String.concat sep (replicate (S n) t)) = t.
Proof.
  revert i. induction n as [|n IH]; intros i Hi.
  - assert (i = 0%nat) as -> by lia. simpl.
    rewrite <- (substring_head t "") at 3.
    replace (t ++ "")%string with t; [reflexivity|].
    clear. induction t as [|c t IH]; simpl; [reflexivity | rewrite <- IH; reflexivity].
  - rewrite concat_replicate_S. destruct i as [|i].
    + apply substring_head.
    + replace (S i * (String.length t + String.length sep))%nat
        with (String.length t + (String.length sep + i * (String.length t + String.length sep)))%nat
        by lia.
      rewrite !substring_skip. apply IH. lia.
Qed.

(** X16.  The marquee shows its text ten times, evenly spaced: a copy starts
    every [length text + 9] characters, the nine separators sit between the
    copies and none leads or trails, so the whole is [10 * length text + 81]
    characters long, 81 for the empty text. *)
Theorem Marquee_ten_copies (text : string) (i : nat) :
  (i < 10)%nat ->
  String.length (Marquee_text text) = (10 * String.length text + 81)%nat /\
  substring (i * (String.length text + 9)) (String.length text)
    (Marquee_text text) = text.
Proof.
  intros Hi. unfold Marquee_text. split.
  - rewrite (concat_replicate_length "   ///   " text 9). simpl String.length. lia.
  - apply (concat_replicate_copy "   ///   " text 9 i). lia.
Qed.

(** * The particle field under theme changes *)

Section ThemeEvents.

Variable sin : Q -> Q.
Variable random : nat -> Q.

Lemma same_motion_mount (count : option number) (d d' : bool) (k : nat) :
  same_motion count (ParticleField_render random count d None k)
                    (ParticleField_render random count d' None k).
Proof.
  unfold ParticleField_render, useMemo. simpl option_map.
  destruct (positions random (dflt (Num 200) count) k) as [[pos k']|e]; simpl.
  - repeat split. destruct (dflt (Num 200) count); simpl; [reflexivity|].
    apply Qeq_bool_iff. reflexivity.
  - reflexivity.
Qed.

Lemma same_motion_tick (count : option number) (t : number)
    (st1 st2 : completion (Points * nat)) :
  same_motion count st1 st2 ->
  same_motion count (step sin random count st1 (Tick t))
                    (step sin random count st2 (Tick t)).
Proof.
  destruct st1 as [[p1 k1]|e1], st2 as [[p2 k2]|e2]; simpl; try tauto.
  intros (Hm & Hp & Hk & Hd). rewrite Hp. auto.
Qed.

Lemma same_motion_render (count : option number) (d : bool)
    (st1 st2 : completion (Points * nat)) :
  same_motion count st1 st2 ->
  same_motion count (step sin random count st1 (Rerender d)) st2.
Proof.
  destruct st1 as [[p1 k1]|e1], st2 as [[p2 k2]|e2]; simpl; try tauto.
  intros (Hm & Hp & Hk & Hd).
  unfold ParticleField_render, useMemo. simpl option_map.
  destruct (memo p1) as [dep pos] eqn:E. simpl in Hd. rewrite Hd. simpl.
  rewrite <- Hm. auto.
Qed.

(** X11.  The theme leaves no trace in the motion of the particle field: with
    the renders caused by theme changes removed from its history, and
    whatever the theme it was mounted under, the field ends with the same
    buffer, the same [<points>] transform and the same number of draws (or
    fails in the same way); the colour of the material alone can differ. *)
Theorem theme_events_leave_no_trace (count : option number) (isDark isDark' : bool)
    (k : nat) (es : list Event) :
  match run sin random count isDark k es,
        run sin random count isDark' k (only_ticks es) with
  | Normal (p1, k1), Normal (p2, k2) =>
      memo p1 = memo p2 /\ points p1 = points p2 /\ k1 = k2
  | Throw e1, Throw e2 => e1 = e2
  | _, _ => False
  end.
Proof.
  assert (H : same_motion count (run sin random count isDark k es)
                (run sin random count isDark' k (only_ticks es))).
  { induction es as [|e es IH] using rev_ind.
    - apply same_motion_mount.
    - unfold only_ticks. rewrite flat_map_app. fold (only_ticks es).
      destruct e as [t|d]; simpl.
      + rewrite !run_snoc. apply same_motion_tick. exact IH.
      + rewrite app_nil_r, run_snoc. apply same_motion_render. exact IH. }
  unfold same_motion in H.
  destruct (run sin random count isDark k es) as [[p1 k1]|e1],
           (run sin random count isDark' k (only_ticks es)) as [[p2 k2]|e2];
    tauto.
Qed.

End ThemeEvents.

(** * Instances of the further properties *)

Lemma SampleBounded_sin_range (q : Q) :
  (-1 <= SampleBounded.sin q)%Q /\ (SampleBounded.sin q <= 1)%Q.
Proof.
  unfold SampleBounded.sin.
  assert (Hsq : forall r : Q, (0 <= r * r)%Q) by (intros r; nra).
  pose proof (Hsq q) as H0. pose proof (Hsq (q + 1)%Q) as H1.
  pose proof (Hsq (q - 1)%Q) as H2.
  assert (E1 : ((q + 1) * (q + 1) == q * q + 2 * q + 1)%Q) by ring.
  assert (E2 : ((q - 1) * (q - 1) == q * q - 2 * q + 1)%Q) by ring.
  rewrite E1 in H1. rewrite E2 in H2.
  assert (Hpos : (0 < 1 + q * q)%Q) by lra.
  split.
  - apply Qle_shift_div_l; [exact Hpos | lra].
  - apply Qle_shift_div_r; [exact Hpos | lra].
Qed.

Lemma transform_after_run_witness :
  let c := CosmicOrb origin "#a78bfa" (Some (Num 1)) None None in
  frames Sample.sin c ([NaN; Num (-4)] ++ [Num 2]) (mount c) =
  frames Sample.sin c ([Num 1; Num 1.5] ++ [Num 2]) (mount c).
Proof.
  intros c.
  apply (transform_after_run Sample.sin c [NaN; Num (-4)] [Num 1; Num 1.5] (Num 2) (mount c)).
  reflexivity.
Defined.

Lemma stateless_components_witness :
  let c := NeonTorus (xyz (-2.5) 1 (-1)) NEO.cyan in
  frames Sample.sin c ([Num 1; NaN] ++ [Num 2]) (mount c) =
  useFrame Sample.sin c (Num 2) (mount c).
Proof.
  intros c.
  apply (stateless_components Sample.sin c [Num 1; NaN] (Num 2) (mount c)).
  intros s inc. destruct s; discriminate.
Defined.

Lemma accumulated_angle_witness :
  let c := NeonOctahedron (xyz 1 2 (-2)) NEO.purple in
  same (get rotation_y (frames Sample.sin c [Num 1; NaN; Num 3] (mount c)))
       (Num (0 + inject_Z (Z.of_nat 3) * 0.01)).
Proof.
  intros c.
  apply (accumulated_angle Sample.sin c rotation_y 0.01 0 [Num 1; NaN; Num 3] (mount c));
    reflexivity.
Defined.

Lemma sway_within_amplitude_witness :
  let c := GlassOrb (xyz (-2.5) 1.2 (-1)) "#22d3ee" (Some (Num 0.7)) in
  between (1.2 - 0.3) (1.2 + 0.3)
    (get position_y (frames SampleBounded.sin c ([Num 1] ++ [Num 7]) (mount c))).
Proof.
  intros c.
  apply (sway_within_amplitude SampleBounded.sin SampleBounded_sin_range
           c position_y 1.2 0.3 7 [Num 1] (mount c));
    [reflexivity | vm_compute; discriminate | vm_compute; discriminate].
Defined.

Lemma buffer_within_box_witness :
  between (-10) 10 (coordinate Sample.random 10 2) /\
  ((2 mod 3 = 2)%nat -> between (-5) 5 (coordinate Sample.random 10 2)).
Proof.
  apply (buffer_within_box Sample.random Sample_random_range (Num 1) 0 3
           [coordinate Sample.random 20 0; coordinate Sample.random 20 1;
            coordinate Sample.random 10 2] 2);
    reflexivity.
Defined.

Lemma empty_field_witness :
  positions Sample.random NaN 5 = Normal ([], 5%nat) /\
  ParticleField_render Sample.random (Some NaN) false None 5 =
    Normal (mkPoints (NaN, []) (mount (ParticleField (Some NaN) false)) "#7c3aed",
            5%nat).
Proof.
  apply (empty_field Sample.random NaN false 5). left. reflexivity.
Defined.

Lemma oversized_count_throws_witness :
  positions Sample.random (Num (inject_Z (2 ^ 53))) 0 = Throw RangeError /\
  ParticleField_render Sample.random (Some (Num (inject_Z (2 ^ 53)))) true None 0 =
    Throw RangeError.
Proof.
  apply (oversized_count_throws Sample.random (inject_Z (2 ^ 53)) true 0).
  intro H. discriminate H.
Defined.

Lemma buffer_reproducible_witness :
  positions Sample.random (Num 2) 0 =
  positions (fun k => if (k <? 6)%nat then Sample.random k else 0%Q) (Num 2) 0.
Proof.
  apply (buffer_reproducible Sample.random
           (fun k => if (k <? 6)%nat then Sample.random k else 0%Q) (Num 2) 0).
  intros j Hj. change (3 * trip_count (Num 2))%nat with 6%nat in Hj.
  simpl Nat.add. destruct (Nat.ltb_spec j 6) as [_|Hge]; [reflexivity | lia].
Defined.

Lemma Nav_follows_last_scroll_witness :
  let p0 := mkPage (mkWindow (Num 300) [7%nat]) None in
  scrolled (Nav_mount 1 p0) = Some false /\
  scrolled (scrolls 1 ([Num 10; Num 400] ++ [Num 50]) (Nav_mount 1 p0)) = Some false /\
  background (Nav_style true false) = "transparent"%string.
Proof.
  intros p0.
  destruct (Nav_follows_last_scroll 1 true p0 [Num 10; Num 400] (Num 50)) as (H1 & H2 & H3).
  split; [exact H1|]. split; [exact H2|].
  apply (proj2 (H3 false H2)). reflexivity.
Defined.

Lemma Nav_unmount_restores_window_witness :
  let p0 := mkPage (mkWindow (Num 0) [7%nat]) None in
  let p := Nav_unmount 1 (scrolls 1 [Num 10; Num 400] (Nav_mount 1 p0)) in
  listeners (window p) = [7%nat] /\
  scrolled (scrolls 1 [Num 900] p) = None /\
  listeners (window (scrolls 1 [Num 900] p)) = [7%nat].
Proof.
  intros p0 p.
  apply (Nav_unmount_restores_window 1 p0 [Num 10; Num 400] [Num 900]).
  simpl. intros H. apply list_elem_of_singleton in H. discriminate H.
Defined.

Lemma href_is_an_anchor_witness :
  href "How it Works" = String "#" "how-it-works" /\
  String.length "how-it-works" = String.length "How it Works" /\
  none_of is_space "how-it-works" /\ none_of is_upper "how-it-works" /\
  replace_spaces (toLowerCase "how-it-works") = "how-it-works"%string.
Proof.
  apply (href_is_an_anchor "How it Works").
  simpl ascii_only. repeat split; apply Nat.ltb_lt; reflexivity.
Defined.

Lemma every_path_lands_on_a_design_witness :
  (exists d, landing String.eqb "/pricing" = Lazy d) /\
  ((forall pat, In pat ["/1"; "/2"; "/3"; "/4"; "/5"]%string ->
                String.eqb pat "/pricing" = false) ->
   App String.eqb "/pricing" = Navigate "/1" true /\
   landing String.eqb "/pricing" = Lazy Design1).
Proof.
  apply (every_path_lands_on_a_design String.eqb "/pricing"). reflexivity.
Defined.

Lemma Marquee_ten_copies_witness :
  String.length (Marquee_text "AI POWERED") = (10 * String.length "AI POWERED" + 81)%nat /\
  substring (3 * (String.length "AI POWERED" + 9)) (String.length "AI POWERED")
    (Marquee_text "AI POWERED") = "AI POWERED"%string.
Proof.
  apply (Marquee_ten_copies "AI POWERED" 3). lia.
Defined.
